(** * ASCII process viewer: a shallow embedding of [ascii_process_viewer.py]

    The viewer samples the process table, ranks the records by CPU and
    memory use, computes a layout from the terminal width and prints a
    table with two proportional bars per row.

    Modelling choices, all local to this file:
    - Python [int] is [Z]; a Python [float] is the rational [Q] it stands
      for (comparison by value, [==] is [Qeq]); the float division and
      product of [proportion_bar] round their exact result to binary64 as
      module [Float] says;
    - Python [str] is [string], one [ascii] standing for one character;
    - [print] is modelled by the list of the strings printed, one per call
      (the banner is one string of several lines);
    - the psutil queries are data: every process handle carries the outcome
      of its two metric queries. *)

From Stdlib Require Import ZArith QArith Qround Lia List Bool Ascii String.
From Stdlib Require Import DecimalString Permutation Sorted Lqa.
Import ListNotations.

Local Open Scope string_scope.
Local Open Scope Z_scope.

(** ** Configuration (lines 34-37) *)

Definition DEFAULT_TOP : Z := 10.
Definition DEFAULT_REFRESH : Q := 1.
Definition MIN_BAR_WIDTH : Z := 10.
Definition MAX_NAME_LEN : Z := 25.

(** ** Python built-ins used by the program *)

Module Py.

(** [min(a, b)]: the first argument unless the second is strictly less. *)
Definition min (a b : Q) : Q :=
  match Qcompare b a with Lt => b | _ => a end.

(** [max(a, b)]: the first argument unless the second is strictly greater. *)
Definition max (a b : Q) : Q :=
  match Qcompare b a with Gt => b | _ => a end.

(** [round(x)] with one argument: nearest integer, ties to the even one. *)
Definition round (x : Q) : Z :=
  let f := Qfloor x in
  match Qcompare (x - inject_Z f) (1 # 2) with
  | Lt => f
  | Gt => f + 1
  | Eq => if Z.even f then f else f + 1
  end.

(** [s * n]: [n] copies of [s], none when [n <= 0]. *)
Fixpoint repeat (s : string) (n : nat) : string :=
  match n with
  | O => ""
  | S n' => s ++ repeat s n'
  end.

Definition mul (s : string) (n : Z) : string := repeat s (Z.to_nat n).

(** [len(s)] as an [int]. *)
Definition len (s : string) : Z := Z.of_nat (String.length s).

(** Format specs [<w] and [>w]: pad with spaces up to [w], never truncate. *)
Definition ljust (s : string) (w : Z) : string := s ++ mul " " (w - len s).
Definition rjust (s : string) (w : Z) : string := mul " " (w - len s) ++ s.

(** [str(n)] for an [int]. *)
Definition str (n : Z) : string := NilZero.string_of_int (Z.to_int n).

(** Format spec [.1f]: sign, integer digits, point, one decimal digit, the
    value rounded to one decimal with ties to even. *)
Definition format_1f (x : Q) : string :=
  let t := Z.abs (round (x * 10)) in
  (match Qcompare x 0 with Lt => "-" | _ => "" end)
    ++ str (t / 10) ++ "." ++ str (t mod 10).

(** Number of occurrences of the character [c] in [s]. *)
Fixpoint count (c : ascii) (s : string) : nat :=
  match s with
  | EmptyString => O
  | String d s' => ((if Ascii.eqb c d then 1 else 0) + count c s')%nat
  end.

End Py.

Module Float.

(** Binary64 arithmetic on the rationals that floats stand for: the exact
    result of an operation is rounded to the nearest float, ties to the
    even significand.  A float below [2^53] in magnitude is a whole number
    of units [2^(-k)], [k] being the least number from 0 to 1074 that
    brings the number to [2^52] units or more (1074 for the subnormals).
    From [2^53] on, where floats are integers far beyond any width,
    percentage or interval of this program, the number is kept as it is. *)

Definition two52 : Q := 4503599627370496.
Definition two53 : Q := 9007199254740992.

(** [2^k]. *)
Definition p2 (k : nat) : Q := inject_Z (2 ^ Z.of_nat k).

(** The search for that number of halvings, from [k] upwards, in at most
    [fuel] steps. *)
Fixpoint halvings (fuel k : nat) (x : Q) : nat :=
  match fuel with
  | O => k
  | S fuel' =>
      match Qcompare (x * p2 k) two52 with
      | Lt => halvings fuel' (S k) x
      | _ => k
      end
  end.

(** Rounding of a number from 0 to [2^53]. *)
Definition round_pos (x : Q) : Q :=
  let k := halvings 1074 0 x in
  inject_Z (Py.round (x * p2 k)) / p2 k.

(** Rounding; that of a negative number mirrors that of its opposite. *)
Definition rnd (x : Q) : Q :=
  match Qcompare x 0 with
  | Lt => if Qle_bool x (- two53) then x else - round_pos (- x)
  | _ => if Qle_bool two53 x then x else round_pos x
  end.

(** [x / y] for a divisor other than zero, [x * y], and the conversion of
    an [int] that meets a float. *)
Definition div (x y : Q) : Q := rnd (x / y).
Definition mul (x y : Q) : Q := rnd (x * y).
Definition of_int (n : Z) : Q := rnd (inject_Z n).

End Float.

(** ** Utility functions (lines 51-60) *)

Definition clamp (v a b : Q) : Q := Py.max a (Py.min b v).

(** The float [(value / 100.0) * width] rounded in [proportion_bar], the
    value being clamped already, and the local [filled]. *)
Definition fill_ratio (value : Q) (width : Z) : Q :=
  Float.mul (Float.div (clamp value 0 100) 100) (Float.of_int width).

Definition filled (value : Q) (width : Z) : Z :=
  let value := clamp value 0 100 in
  Py.round (Float.mul (Float.div value 100) (Float.of_int width)).

Definition proportion_bar (value : Q) (width : Z) : string :=
  let value := clamp value 0 100 in
  let filled := Py.round (Float.mul (Float.div value 100) (Float.of_int width)) in
  let empty := width - filled in
  "[" ++ Py.mul "#" filled ++ Py.mul " " empty ++ "]".

(** ** Layout (lines 89-99 of [draw]) *)

Record Layout : Set := mkLayout {
  pid_w : Z;
  cpu_pct_w : Z;
  mem_pct_w : Z;
  name_w : Z;
  reserved : Z;
  bar_space : Z;
  cpu_bar_w : Z;
  mem_bar_w : Z
}.

Definition layout (term_width : Z) : Layout :=
  let pid_w := 6 in
  let cpu_pct_w := 6 in
  let mem_pct_w := 6 in
  let name_w := 1 + MAX_NAME_LEN in
  let reserved := pid_w + name_w + cpu_pct_w + mem_pct_w + 10 in
  let bar_space := Z.max MIN_BAR_WIDTH (term_width - reserved) in
  let cpu_bar_w := bar_space / 2 in
  let mem_bar_w := bar_space - cpu_bar_w in
  mkLayout pid_w cpu_pct_w mem_pct_w name_w reserved bar_space
           cpu_bar_w mem_bar_w.

(** ** More built-ins: slices, comparisons and [list.sort] *)

Module PySeq.

(** [l[:n]]: the first [n] items, or all but the last [-n] when [n < 0]. *)
Definition slice_to {A : Type} (l : list A) (n : Z) : list A :=
  if 0 <=? n then firstn (Z.to_nat n) l
  else firstn (List.length l - Z.to_nat (- n)) l.

(** [s[:n]] on a [str]. *)
Definition str_slice_to (s : string) (n : Z) : string :=
  if 0 <=? n then substring 0 (Z.to_nat n) s
  else substring 0 (String.length s - Z.to_nat (- n)) s.

(** [<] on floats. *)
Definition ltb (x y : Q) : bool :=
  match Qcompare x y with Lt => true | _ => false end.

(** [<] on pairs: the first components that differ decide. *)
Definition tuple_ltb (a b : Q * Q) : bool :=
  if Qeq_bool (fst a) (fst b) then ltb (snd a) (snd b)
  else ltb (fst a) (fst b).

Section Sort.
Context {A K : Type}.
Variable key : A -> K.
Variable lt : K -> K -> bool.

(** [list.sort] compares with [<] only and is stable.  A stable sort has
    one possible result, computed here by insertion: an item goes in
    front of the first item that is not strictly smaller. *)
Fixpoint insert (x : A) (l : list A) : list A :=
  match l with
  | [] => [x]
  | y :: l' => if lt (key y) (key x) then y :: insert x l' else x :: l
  end.

Definition stable_sort (l : list A) : list A := fold_right insert [] l.

(** [l.sort(key=key, reverse=r)]: with [reverse=True] the list is
    reversed, sorted in ascending order and reversed again. *)
Definition sort (reverse : bool) (l : list A) : list A :=
  if reverse then rev (stable_sort (rev l)) else stable_sort l.

(** [y] may follow [x] in an ascending, or in a descending, result: it
    is not strictly smaller, or not strictly greater. *)
Definition asc (x y : A) : Prop := lt (key y) (key x) = false.
Definition desc (x y : A) : Prop := lt (key x) (key y) = false.
End Sort.

End PySeq.

(** ** Sampling (lines 65-82) *)

(** What a psutil query can raise. *)
Inductive psutil_error : Set :=
| NoSuchProcess
| AccessDenied
| OtherError.

(** A small error monad for code that may raise. *)
Definition raises (A : Type) : Type := (psutil_error + A)%type.
Definition ret {A : Type} (a : A) : raises A := inr a.
Definition raise {A : Type} (e : psutil_error) : raises A := inl e.
Definition bind {A B : Type} (m : raises A) (k : A -> raises B) : raises B :=
  match m with
  | inl e => inl e
  | inr a => k a
  end.

Notation "x <- m ;; k" := (bind m (fun x => k))
  (at level 61, m at next level, right associativity).

(** A process yielded by [psutil.process_iter(['pid', 'name'])]: the
    pre-fetched [info] and the outcome of each metric query. *)
Record Process : Type := mkProcess {
  info_pid : Z;
  info_name : option string;
  cpu_percent : raises Q;
  memory_percent : raises Q
}.

(** The dict appended to [procs]. *)
Record ProcRecord : Type := mkRecord {
  pid : Z;
  name : string;
  cpu : Q;
  mem : Q
}.

(** [info.get('name') or '']. *)
Definition name_or_empty (n : option string) : string :=
  match n with
  | Some s => s
  | None => ""
  end.

(** The body of the [try] block for one process. *)
Definition sample (p : Process) : raises ProcRecord :=
  cpu <- cpu_percent p ;;
  mem <- memory_percent p ;;
  ret (mkRecord (info_pid p)
                (PySeq.str_slice_to (name_or_empty (info_name p)) MAX_NAME_LEN)
                cpu mem).

(** The [for] loop, [procs] being the list built so far. *)
Fixpoint fetch_loop (table : list Process) (procs : list ProcRecord)
  : raises (list ProcRecord) :=
  match table with
  | [] => ret procs
  | p :: table' =>
      match sample p with
      | inr r => fetch_loop table' (procs ++ [r])%list
      | inl NoSuchProcess => fetch_loop table' procs
      | inl AccessDenied => fetch_loop table' procs
      | inl e => raise e
      end
  end.

Definition fetch_processes (table : list Process) : raises (list ProcRecord) :=
  fetch_loop table [].

(** ** Ranking (line 162 of [main]) *)

Definition sort_key (x : ProcRecord) : Q * Q := (cpu x, mem x).

Definition rank (procs : list ProcRecord) : list ProcRecord :=
  PySeq.sort sort_key PySeq.tuple_ltb true procs.

(** ** Display (lines 101-138 of [draw]) *)

(** The character U+2014: one [ascii] as every character, the one with
    code 151, where Windows-1252 has this dash. *)
Definition em_dash : string := String (ascii_of_nat 151) "".

Definition title (top_n : Z) (refresh_interval : Q) : string :=
  "ASCII Process Viewer " ++ em_dash ++ " top " ++ Py.str top_n
    ++ " processes by CPU (refresh " ++ Py.format_1f refresh_interval ++ "s)".

Definition header (L : Layout) : string :=
  Py.ljust "PID" (pid_w L) ++ " " ++ Py.ljust "NAME" (name_w L) ++ " "
    ++ Py.rjust "CPU%" (cpu_pct_w L) ++ " "
    ++ Py.ljust "CPU BAR" (cpu_bar_w L + 2) ++ " "
    ++ Py.rjust "MEM%" (mem_pct_w L) ++ " "
    ++ Py.ljust "MEM BAR" (mem_bar_w L + 2).

(** One iteration of the loop over [procs[:top_n]]. *)
Definition line (L : Layout) (p : ProcRecord) : string :=
  let pid := PySeq.str_slice_to (Py.str (pid p)) (pid_w L) in
  let name := PySeq.str_slice_to (name p) MAX_NAME_LEN in
  let cpu := cpu p in
  let mem := mem p in
  let cpu_bar := proportion_bar cpu (cpu_bar_w L - 2) in
  let mem_bar := proportion_bar mem (mem_bar_w L - 2) in
  Py.ljust pid (pid_w L) ++ " " ++ Py.ljust name (name_w L) ++ " "
    ++ Py.rjust (Py.format_1f cpu) (cpu_pct_w L) ++ "% " ++ cpu_bar ++ " "
    ++ Py.rjust (Py.format_1f mem) (mem_pct_w L) ++ "% " ++ mem_bar.

Definition data_rows (L : Layout) (procs : list ProcRecord) (top_n : Z)
  : list string :=
  map (line L) (PySeq.slice_to procs top_n).

Definition footer (total_procs top_n : Z) (procs : list ProcRecord) : string :=
  "Processes: " ++ Py.str total_procs ++ " | Showing top "
    ++ Py.str (Z.min top_n (Z.of_nat (List.length procs)))
    ++ " by CPU usage".

Section Draw.
(** The banner literal of lines 103-116; its text plays no role. *)
Variable logo : string.

(** The strings printed by [draw], one per [print] call, the banner being
    one string of several lines; [total_procs] is [len(psutil.pids())]. *)
Definition draw (procs : list ProcRecord) (term_width top_n : Z)
           (refresh_interval : Q) (total_procs : Z) : list string :=
  let L := layout term_width in
  ([logo; title top_n refresh_interval; Py.mul "-" term_width;
    header L; Py.mul "-" term_width]
     ++ data_rows L procs top_n
     ++ [Py.mul "-" term_width; footer total_procs top_n procs])%list.
End Draw.

(** ** One tick of the loop of [main] (lines 147-165)

    [args_top] and [args_refresh] are the parsed flags, [table] what
    [psutil.process_iter] yields in this tick. *)
Definition tick (logo : string) (args_top : Z) (args_refresh : Q)
           (table : list Process) (term_width total_procs : Z)
  : raises (list string) :=
  let top_n := Z.max 1 args_top in
  let refresh := Py.max (1 # 10) args_refresh in
  procs <- fetch_processes table ;;
  ret (draw logo (rank procs) term_width top_n refresh total_procs).

(** ** Start-up and the loop of [main] (lines 141-168) *)

(** The priming loop of lines 151-155: [cpu_percent] alone is called on
    every process, the two expected errors are skipped. *)
Fixpoint prime (table : list Process) : raises unit :=
  match table with
  | [] => ret tt
  | p :: table' =>
      match cpu_percent p with
      | inr _ => prime table'
      | inl NoSuchProcess => prime table'
      | inl AccessDenied => prime table'
      | inl e => raise e
      end
  end.

(** What one iteration of the loop reads from outside: the process table,
    the terminal width and [len(psutil.pids())]. *)
Record TickEnv : Type := mkTickEnv {
  env_table : list Process;
  env_term_width : Z;
  env_total_procs : Z
}.

(** What the program does to the outside, in order. *)
Inductive event : Type :=
| Sleep (seconds : Q)
| ClearScreen
| Print (text : string).

(** How the program ends: [sys.exit(code)], or an exception that nothing
    catches. *)
Inductive termination : Set :=
| Exit (code : Z)
| Uncaught (e : psutil_error).

(** The [while True] loop run on the iterations [envs], the
    [KeyboardInterrupt] arriving during the sleep that follows the last of
    them: [print('\nExiting...')], [sys.exit(0)].  An exception of
    [fetch_processes] is not caught by [except KeyboardInterrupt]. *)
Fixpoint loop (logo : string) (args_top : Z) (args_refresh : Q)
         (envs : list TickEnv) : list event * termination :=
  let refresh := Py.max (1 # 10) args_refresh in
  match envs with
  | [] => ([Sleep refresh; Print (String (ascii_of_nat 10) "Exiting...")],
           Exit 0)
  | env :: envs' =>
      match tick logo args_top args_refresh (env_table env)
                 (env_term_width env) (env_total_procs env) with
      | inl e => ([Sleep refresh], Uncaught e)
      | inr screen =>
          let (events, t) := loop logo args_top args_refresh envs' in
          ((Sleep refresh :: ClearScreen :: map Print screen) ++ events, t)%list
      end
  end.

(** [main]: the flags [-n] and [-r] when given, else the defaults; the
    priming loop on the table of start-up, outside the [try]; the loop. *)
Definition main (logo : string) (top : option Z) (refresh : option Q)
           (startup : list Process) (envs : list TickEnv)
  : list event * termination :=
  let args_top := match top with Some n => n | None => DEFAULT_TOP end in
  let args_refresh :=
    match refresh with Some r => r | None => DEFAULT_REFRESH end in
  match prime startup with
  | inl e => ([], Uncaught e)
  | inr _ => loop logo args_top args_refresh envs
  end.

(** The screen was cleared at this event; the event is a sleep shorter
    than [s] seconds. *)
Definition is_clear (e : event) : bool :=
  match e with
  | ClearScreen => true
  | _ => false
  end.

Definition sleeps_less (s : Q) (e : event) : bool :=
  match e with
  | Sleep d => PySeq.ltb d s
  | _ => false
  end.

(** ** Predicates of the specification *)

(** [a] may precede [b] in the ranking: more CPU, or as much CPU and at
    least as much memory. *)
Definition ranked_before (a b : ProcRecord) : Prop :=
  (cpu b < cpu a \/ (cpu a == cpu b /\ mem b <= mem a))%Q.

(** The record has exactly the CPU and memory percentages [c] and [m]. *)
Definition tied_at (c m : Q) (x : ProcRecord) : bool :=
  Qeq_bool (cpu x) c && Qeq_bool (mem x) m.

(** The metric queries of [p] raise [e]: the first of the two that fails
    decides. *)
Definition signals (e : psutil_error) (p : Process) : Prop :=
  sample p = inl e.

(** The process vanished or is out of reach when queried. *)
Definition transient (p : Process) : Prop :=
  signals NoSuchProcess p \/ signals AccessDenied p.

(** Both metric queries of [p] answer. *)
Definition accessible (p : Process) : bool :=
  match sample p with
  | inr _ => true
  | inl _ => false
  end.

(** The records a process contributes: one if it is accessible. *)
Definition record_of (p : Process) : list ProcRecord :=
  match sample p with
  | inr r => [r]
  | inl _ => []
  end.

(** * Properties *)

(** ** Rounding and clamping *)

Section Rounding.
Local Open Scope Q_scope.

Lemma round_cases (x : Q) :
  (Py.round x = Qfloor x \/ Py.round x = Qfloor x + 1)%Z.
Proof.
  unfold Py.round.
  destruct (Qcompare _ _); [destruct (Z.even _)| |]; auto.
Qed.

Lemma round_mono (x y : Q) : x <= y -> (Py.round x <= Py.round y)%Z.
Proof.
  intros Hxy.
  pose proof (Qfloor_resp_le x y Hxy) as Hf.
  destruct (Z.eq_dec (Qfloor x) (Qfloor y)) as [e | ne].
  - unfold Py.round. rewrite e.
    destruct (Qcompare_spec (x - inject_Z (Qfloor y)) (1 # 2));
      destruct (Qcompare_spec (y - inject_Z (Qfloor y)) (1 # 2));
      try destruct (Z.even (Qfloor y)); try lia; exfalso; lra.
  - destruct (round_cases x) as [-> | ->], (round_cases y) as [-> | ->]; lia.
Qed.

Lemma round_inject_Z (z : Z) : Py.round (inject_Z z) = z.
Proof.
  unfold Py.round. rewrite Qfloor_Z.
  destruct (Qcompare_spec (inject_Z z - inject_Z z) (1 # 2));
    try reflexivity; exfalso; lra.
Qed.

Lemma round_eq (x : Q) (z : Z) : x == inject_Z z -> Py.round x = z.
Proof.
  intros H.
  assert (H1 : x <= inject_Z z) by lra.
  assert (H2 : inject_Z z <= x) by lra.
  apply round_mono in H1, H2. rewrite round_inject_Z in H1, H2. lia.
Qed.

Lemma round_compat (x y : Q) : x == y -> Py.round x = Py.round y.
Proof.
  intros H.
  assert (H1 : x <= y) by lra.
  assert (H2 : y <= x) by lra.
  apply round_mono in H1, H2. lia.
Qed.

Ltac clamp_cases v a b :=
  unfold clamp, Py.max, Py.min;
  destruct (Qcompare_spec v b);
  match goal with
  | |- context [Qcompare ?u a] => destruct (Qcompare_spec u a)
  end.

Lemma clamp_range (v a b : Q) : a <= b -> a <= clamp v a b <= b.
Proof. intros Hab. clamp_cases v a b; lra. Qed.

Lemma clamp_inside (v a b : Q) : a <= v <= b -> clamp v a b == v.
Proof. intros Hv. clamp_cases v a b; lra. Qed.

Lemma clamp_below (v a b : Q) : a <= b -> v <= a -> clamp v a b == a.
Proof. intros Hab Hv. clamp_cases v a b; lra. Qed.

Lemma clamp_above (v a b : Q) : a <= b -> b <= v -> clamp v a b == b.
Proof. intros Hab Hv. clamp_cases v a b; lra. Qed.

Lemma clamp_mono (v v' a b : Q) :
  a <= b -> v <= v' -> clamp v a b <= clamp v' a b.
Proof.
  intros Hab Hv.
  destruct (Qlt_le_dec v a) as [Ha | Ha].
  - rewrite (clamp_below v a b) by lra. apply clamp_range, Hab.
  - destruct (Qlt_le_dec b v') as [Hb | Hb].
    + rewrite (clamp_above v' a b) by lra. apply clamp_range, Hab.
    + rewrite (clamp_inside v a b), (clamp_inside v' a b) by lra. exact Hv.
Qed.

Lemma p2_pos (k : nat) : 0 < Float.p2 k.
Proof.
  unfold Float.p2. change 0 with (inject_Z 0). rewrite <- Zlt_Qlt.
  apply Z.pow_pos_nonneg; lia.
Qed.

Lemma p2_S (k : nat) : Float.p2 (S k) == 2 * Float.p2 k.
Proof.
  unfold Float.p2. rewrite Nat2Z.inj_succ, Z.pow_succ_r by lia.
  rewrite inject_Z_mult. reflexivity.
Qed.

Lemma p2_ge_1 (k : nat) : 1 <= Float.p2 k.
Proof.
  induction k as [| k IH]; [apply Qle_refl |].
  rewrite p2_S. lra.
Qed.

Lemma p2_double (j k : nat) : (j < k)%nat -> 2 * Float.p2 j <= Float.p2 k.
Proof.
  induction 1 as [| k Hk IH]; rewrite p2_S; [lra |].
  pose proof (p2_pos j). lra.
Qed.

Lemma halvings_ge (fuel k : nat) (x : Q) :
  (k <= Float.halvings fuel k x)%nat.
Proof.
  revert k.
  induction fuel as [| fuel IH]; intros k; cbn [Float.halvings]; [lia |].
  destruct (Qcompare _ _); try lia. specialize (IH (S k)). lia.
Qed.

Lemma halvings_below (fuel k : nat) (x : Q) :
  x * Float.p2 k < Float.two53 ->
  x * Float.p2 (Float.halvings fuel k x) < Float.two53.
Proof.
  revert k.
  induction fuel as [| fuel IH]; intros k H; cbn [Float.halvings]; [exact H |].
  destruct (Qcompare_spec (x * Float.p2 k) Float.two52) as [E | E | E];
    try exact H.
  apply IH. rewrite p2_S. unfold Float.two52, Float.two53 in *.
  set (t := x * Float.p2 k) in *.
  assert (x * (2 * Float.p2 k) == 2 * t) by (unfold t; ring). lra.
Qed.

Lemma halvings_mono (fuel k : nat) (x y : Q) :
  x <= y ->
  Float.halvings fuel k x = Float.halvings fuel k y \/
  ((Float.halvings fuel k y < Float.halvings fuel k x)%nat /\
   Float.two52 <= y * Float.p2 (Float.halvings fuel k y)).
Proof.
  intros Hxy. revert k.
  induction fuel as [| fuel IH]; intros k; cbn [Float.halvings];
    [left; reflexivity |].
  assert (Hk : x * Float.p2 k <= y * Float.p2 k).
  { apply Qmult_le_compat_r; [exact Hxy |]. pose proof (p2_pos k). lra. }
  destruct (Qcompare_spec (y * Float.p2 k) Float.two52) as [Ey | Ey | Ey].
  - destruct (Qcompare_spec (x * Float.p2 k) Float.two52) as [Ex | Ex | Ex].
    + left; reflexivity.
    + right. split; [| lra].
      pose proof (halvings_ge fuel (S k) x). lia.
    + exfalso. lra.
  - destruct (Qcompare_spec (x * Float.p2 k) Float.two52) as [Ex | Ex | Ex];
      try (exfalso; lra).
    apply IH.
  - destruct (Qcompare_spec (x * Float.p2 k) Float.two52) as [Ex | Ex | Ex].
    + left; reflexivity.
    + right. split; [| lra].
      pose proof (halvings_ge fuel (S k) x). lia.
    + left; reflexivity.
Qed.

Lemma scaled_le (a b p r : Q) :
  0 < p -> 0 < r -> a * r <= b * p -> a / p <= b / r.
Proof.
  intros Hp Hr H. apply Qle_shift_div_l; [exact Hr |].
  assert (E : a / p * r == (a * r) / p) by (field; lra).
  rewrite E. apply Qle_shift_div_r; [exact Hp | exact H].
Qed.

Lemma round_pos_mono (x y : Q) :
  x <= y -> y < Float.two53 -> Float.round_pos x <= Float.round_pos y.
Proof.
  intros Hxy Hy. unfold Float.round_pos.
  set (kx := Float.halvings 1074 0 x). set (ky := Float.halvings 1074 0 y).
  pose proof (p2_pos kx) as Px. pose proof (p2_pos ky) as Py'.
  apply scaled_le; try assumption.
  destruct (halvings_mono 1074 0 x y Hxy) as [E | [Hlt Hn]];
    fold kx ky in E || fold kx ky in Hlt, Hn.
  - rewrite E. apply Qmult_le_compat_r; [| lra].
    rewrite <- Zle_Qle. apply round_mono.
    fold ky. rewrite <- E. apply Qmult_le_compat_r; [exact Hxy | lra].
  - assert (Hx : x * Float.p2 kx < Float.two53).
    { apply halvings_below. change (Float.p2 0) with 1. lra. }
    assert (Ha : inject_Z (Py.round (x * Float.p2 kx)) <= Float.two53).
    { change Float.two53 with (inject_Z 9007199254740992).
      rewrite <- Zle_Qle. rewrite <- (round_inject_Z 9007199254740992).
      apply round_mono. change (inject_Z 9007199254740992) with Float.two53.
      lra. }
    assert (Hb : Float.two52 <= inject_Z (Py.round (y * Float.p2 ky))).
    { change Float.two52 with (inject_Z 4503599627370496).
      rewrite <- Zle_Qle. rewrite <- (round_inject_Z 4503599627370496) at 1.
      apply round_mono. change (inject_Z 4503599627370496) with Float.two52.
      exact Hn. }
    pose proof (p2_double ky kx Hlt) as Hd.
    set (a := inject_Z (Py.round (x * Float.p2 kx))) in *.
    set (b := inject_Z (Py.round (y * Float.p2 ky))) in *.
    unfold Float.two52, Float.two53 in *.
    apply Qle_trans with (9007199254740992 * Float.p2 ky).
    + apply Qmult_le_compat_r; lra.
    + apply Qle_trans with (4503599627370496 * Float.p2 kx); [lra |].
      apply Qmult_le_compat_r; lra.
Qed.

Lemma round_pos_nonneg (x : Q) : 0 <= x -> 0 <= Float.round_pos x.
Proof.
  intros Hx. unfold Float.round_pos.
  set (k := Float.halvings 1074 0 x). pose proof (p2_pos k) as Pk.
  apply Qle_shift_div_l; [exact Pk |].
  assert (E : 0 * Float.p2 k == inject_Z 0) by ring. rewrite E.
  rewrite <- Zle_Qle. rewrite <- (round_inject_Z 0) at 1.
  apply round_mono. change (inject_Z 0) with 0.
  apply Qmult_le_0_compat; lra.
Qed.

Lemma round_pos_le (x : Q) :
  x < Float.two53 -> Float.round_pos x <= Float.two53.
Proof.
  intros Hx. unfold Float.round_pos.
  set (k := Float.halvings 1074 0 x).
  pose proof (p2_pos k) as Pk. pose proof (p2_ge_1 k) as P1.
  assert (Hk : x * Float.p2 k < Float.two53).
  { apply halvings_below. change (Float.p2 0) with 1. lra. }
  assert (Ha : inject_Z (Py.round (x * Float.p2 k)) <= Float.two53).
  { change Float.two53 with (inject_Z 9007199254740992).
    rewrite <- Zle_Qle. rewrite <- (round_inject_Z 9007199254740992).
    apply round_mono. change (inject_Z 9007199254740992) with Float.two53.
    lra. }
  apply Qle_shift_div_r; [exact Pk |].
  unfold Float.two53 in *. lra.
Qed.

(** A number that is a whole number of units in the last place is kept. *)
Lemma round_pos_exact (x : Q) (m : Z) :
  x * Float.p2 (Float.halvings 1074 0 x) == inject_Z m ->
  Float.round_pos x == x.
Proof.
  intros H. unfold Float.round_pos.
  set (k := Float.halvings 1074 0 x) in *. pose proof (p2_pos k) as Pk.
  rewrite (round_eq _ m H), <- H. field. lra.
Qed.

Lemma rnd_mono (x y : Q) : x <= y -> Float.rnd x <= Float.rnd y.
Proof.
  intros Hxy. unfold Float.rnd.
  destruct (Qcompare_spec x 0) as [Ex | Ex | Ex];
    destruct (Qcompare_spec y 0) as [Ey | Ey | Ey];
    try (exfalso; lra);
    repeat match goal with
      | |- context [Qle_bool ?a ?b] =>
          let H := fresh "B" in
          destruct (Qle_bool a b) eqn:H;
          [apply Qle_bool_iff in H
          | assert (~ a <= b) by (rewrite <- Qle_bool_iff; congruence);
            clear H]
      end;
    try exact Hxy; try (exfalso; lra).
  all: try (apply round_pos_mono; lra).
  all: try (apply Qopp_le_compat, round_pos_mono; lra).
  all: try (pose proof (round_pos_le x); pose proof (round_pos_le y);
            pose proof (round_pos_le (- x)); pose proof (round_pos_le (- y));
            pose proof (round_pos_nonneg x); pose proof (round_pos_nonneg y);
            pose proof (round_pos_nonneg (- x));
            pose proof (round_pos_nonneg (- y));
            unfold Float.two53 in *; lra).
Qed.

Lemma rnd_compat (x y : Q) : x == y -> Float.rnd x == Float.rnd y.
Proof.
  intros H. apply Qle_antisym; apply rnd_mono; lra.
Qed.

Lemma rnd_int (z : Z) : Float.rnd (inject_Z z) == inject_Z z.
Proof.
  assert (Hp : forall n, Float.round_pos (inject_Z n) == inject_Z n).
  { intros n.
    apply (round_pos_exact _ (n * 2 ^ Z.of_nat
                                      (Float.halvings 1074 0 (inject_Z n)))).
    unfold Float.p2. rewrite inject_Z_mult. reflexivity. }
  unfold Float.rnd.
  destruct (Qcompare (inject_Z z) 0).
  - destruct (Qle_bool _ _); [reflexivity | apply Hp].
  - destruct (Qle_bool _ _); [reflexivity |].
    rewrite <- inject_Z_opp, Hp, inject_Z_opp. ring.
  - destruct (Qle_bool _ _); [reflexivity | apply Hp].
Qed.




(** The floats 0.1 and 0.7, and two fills in which the rounding of the
    quotient and of the product decides. *)
Example rnd_examples :
  Float.rnd (1 # 10) == 3602879701896397 # 36028797018963968 /\
  Float.div 70 100 == 3152519739159347 # 4503599627370496 /\
  filled 70 45 = 31%Z /\
  filled (Float.rnd (50 # 3)) 3 = 0%Z.
Proof. repeat split; vm_compute; reflexivity. Qed.

Lemma rnd_ge_int (z : Z) (x : Q) : inject_Z z <= x -> inject_Z z <= Float.rnd x.
Proof.
  intros H. apply Qle_trans with (Float.rnd (inject_Z z));
    [rewrite rnd_int; apply Qle_refl | apply rnd_mono, H].
Qed.

Lemma rnd_le_int (z : Z) (x : Q) : x <= inject_Z z -> Float.rnd x <= inject_Z z.
Proof.
  intros H. apply Qle_trans with (Float.rnd (inject_Z z));
    [apply rnd_mono, H | rewrite rnd_int; apply Qle_refl].
Qed.

Lemma rnd_eq_int (z : Z) (x : Q) : x == inject_Z z -> Float.rnd x == inject_Z z.
Proof.
  intros H. apply Qle_antisym; [apply rnd_le_int | apply rnd_ge_int]; lra.
Qed.


Lemma of_int_exact (w : Z) : Float.of_int w == inject_Z w.
Proof. apply rnd_int. Qed.

Lemma filled_unfold (value : Q) (width : Z) :
  filled value width = Py.round (fill_ratio value width).
Proof. reflexivity. Qed.

Lemma fill_ratio_mono (v v' : Q) (w : Z) :
  (0 <= w)%Z -> v <= v' -> fill_ratio v w <= fill_ratio v' w.
Proof.
  intros Hw Hv. unfold fill_ratio, Float.mul.
  assert (Hc : clamp v 0 100 <= clamp v' 0 100)
    by (apply clamp_mono; [lra | exact Hv]).
  assert (H0 : 0 <= Float.of_int w).
  { rewrite of_int_exact. rewrite Zle_Qle in Hw. exact Hw. }
  apply rnd_mono, Qmult_le_compat_r; [| exact H0].
  apply rnd_mono, Qmult_le_compat_r; [exact Hc | apply Qinv_le_0_compat; lra].
Qed.

Lemma fill_ratio_low (v : Q) (w : Z) : v <= 0 -> fill_ratio v w == 0.
Proof.
  intros Hv. unfold fill_ratio, Float.mul.
  assert (E : Float.div (clamp v 0 100) 100 == 0).
  { apply (rnd_eq_int 0). rewrite (clamp_below v 0 100) by lra. reflexivity. }
  apply (rnd_eq_int 0). rewrite E. change (inject_Z 0) with 0. ring.
Qed.

Lemma fill_ratio_high (v : Q) (w : Z) :
  100 <= v -> fill_ratio v w == inject_Z w.
Proof.
  intros Hv. unfold fill_ratio, Float.mul.
  assert (E : Float.div (clamp v 0 100) 100 == 1).
  { apply (rnd_eq_int 1). rewrite (clamp_above v 0 100) by lra. reflexivity. }
  apply rnd_eq_int. rewrite E, of_int_exact. ring.
Qed.

Lemma fill_ratio_compat (v v' : Q) (w : Z) :
  clamp v 0 100 == clamp v' 0 100 -> fill_ratio v w == fill_ratio v' w.
Proof.
  intros E. unfold fill_ratio, Float.mul, Float.div.
  apply rnd_compat.
  rewrite (rnd_compat (clamp v 0 100 / 100) (clamp v' 0 100 / 100));
    [reflexivity | rewrite E; reflexivity].
Qed.


Lemma filled_mono (v v' : Q) (w : Z) :
  (0 <= w)%Z -> v <= v' -> (filled v w <= filled v' w)%Z.
Proof.
  intros Hw Hv. rewrite !filled_unfold.
  apply round_mono, fill_ratio_mono; assumption.
Qed.

Lemma filled_low (v : Q) (w : Z) : v <= 0 -> filled v w = 0%Z.
Proof.
  intros Hv. rewrite filled_unfold. apply round_eq.
  rewrite fill_ratio_low by exact Hv. reflexivity.
Qed.

Lemma filled_high (v : Q) (w : Z) : 100 <= v -> filled v w = w.
Proof.
  intros Hv. rewrite filled_unfold. apply round_eq, fill_ratio_high, Hv.
Qed.

Lemma filled_range (v : Q) (w : Z) :
  (0 <= w)%Z -> (0 <= filled v w <= w)%Z.
Proof.
  intros Hw. split.
  - destruct (Qlt_le_dec v 0) as [H | H].
    + rewrite filled_low by lra. lia.
    + rewrite <- (filled_low 0 w) by lra. apply filled_mono; assumption.
  - destruct (Qlt_le_dec v 100) as [H | H].
    + rewrite <- (filled_high 100 w) at 2 by lra.
      apply filled_mono; [assumption | lra].
    + rewrite filled_high by lra. lia.
Qed.
End Rounding.

(** ** Lengths and character counts of the string built-ins *)

Section Strings.

Lemma length_append (s t : string) :
  String.length (s ++ t) = (String.length s + String.length t)%nat.
Proof. induction s as [| c s IH]; simpl; [reflexivity | now rewrite IH]. Qed.

Lemma len_append (s t : string) : Py.len (s ++ t) = Py.len s + Py.len t.
Proof. unfold Py.len. rewrite length_append. lia. Qed.

Lemma len_nonneg (s : string) : 0 <= Py.len s.
Proof. unfold Py.len. lia. Qed.

Lemma length_repeat_char (c : ascii) (n : nat) :
  String.length (Py.repeat (String c "") n) = n.
Proof. induction n as [| n IH]; simpl; [reflexivity | now rewrite IH]. Qed.

Lemma len_mul_char (c : ascii) (n : Z) :
  Py.len (Py.mul (String c "") n) = Z.max 0 n.
Proof. unfold Py.len, Py.mul. rewrite length_repeat_char. lia. Qed.

Lemma length_prefix (n : nat) (s : string) :
  String.length (substring 0 n s) = Nat.min n (String.length s).
Proof.
  revert n. induction s as [| c s IH]; intros [| n]; simpl; try reflexivity.
  now rewrite IH.
Qed.

Lemma len_str_slice_to (s : string) (n : Z) :
  0 <= n -> Py.len (PySeq.str_slice_to s n) = Z.min n (Py.len s).
Proof.
  intros Hn. unfold PySeq.str_slice_to, Py.len.
  destruct (Z.leb_spec 0 n); [| lia]. rewrite length_prefix. lia.
Qed.

Lemma len_ljust (s : string) (w : Z) :
  Py.len (Py.ljust s w) = Z.max (Py.len s) w.
Proof.
  unfold Py.ljust. rewrite len_append. change " " with (String " " "").
  rewrite len_mul_char. lia.
Qed.

Lemma len_rjust (s : string) (w : Z) :
  Py.len (Py.rjust s w) = Z.max (Py.len s) w.
Proof.
  unfold Py.rjust. rewrite len_append. change " " with (String " " "").
  rewrite len_mul_char. lia.
Qed.

Lemma count_append (c : ascii) (s t : string) :
  Py.count c (s ++ t) = (Py.count c s + Py.count c t)%nat.
Proof. induction s as [| d s IH]; simpl; [reflexivity | rewrite IH; lia]. Qed.

Lemma count_repeat_same (c : ascii) (n : nat) :
  Py.count c (Py.repeat (String c "") n) = n.
Proof.
  induction n as [| n IH]; simpl; [reflexivity |].
  rewrite Ascii.eqb_refl, IH. reflexivity.
Qed.

Lemma count_repeat_other (c d : ascii) (n : nat) :
  Ascii.eqb c d = false -> Py.count c (Py.repeat (String d "") n) = 0%nat.
Proof.
  intros H. induction n as [| n IH]; simpl; [reflexivity |].
  rewrite H, IH. reflexivity.
Qed.

(** The bar is [filled] hashes and [width - filled] blanks in brackets. *)
Lemma proportion_bar_unfold (value : Q) (width : Z) :
  proportion_bar value width =
  "[" ++ Py.mul "#" (filled value width)
      ++ Py.mul " " (width - filled value width) ++ "]".
Proof. unfold proportion_bar, filled. reflexivity. Qed.

Lemma proportion_bar_len (value : Q) (width : Z) :
  0 <= width -> Py.len (proportion_bar value width) = width + 2.
Proof.
  intros Hw. pose proof (filled_range value width Hw) as Hf.
  rewrite proportion_bar_unfold, !len_append.
  change "#" with (String "#" ""). change " " with (String " " "").
  rewrite !len_mul_char.
  change (Py.len "[") with 1. change (Py.len "]") with 1. lia.
Qed.

Lemma proportion_bar_count (value : Q) (width : Z) :
  Py.count "#" (proportion_bar value width) = Z.to_nat (filled value width).
Proof.
  rewrite proportion_bar_unfold, !count_append. unfold Py.mul.
  change "#" with (String "#" ""). change " " with (String " " "").
  rewrite count_repeat_same, count_repeat_other by reflexivity.
  change (Py.count "#" "[") with 0%nat. change (Py.count "#" "]") with 0%nat.
  lia.
Qed.

End Strings.

(** ** Layout *)

Section LayoutFacts.

Lemma layout_reserved (tw : Z) : reserved (layout tw) = 54.
Proof. reflexivity. Qed.

Lemma layout_bar_space (tw : Z) :
  bar_space (layout tw) = Z.max MIN_BAR_WIDTH (tw - 54).
Proof. reflexivity. Qed.

Lemma layout_cpu_bar_w (tw : Z) :
  cpu_bar_w (layout tw) = bar_space (layout tw) / 2.
Proof. reflexivity. Qed.

Lemma layout_mem_bar_w (tw : Z) :
  mem_bar_w (layout tw) = bar_space (layout tw) - cpu_bar_w (layout tw).
Proof. reflexivity. Qed.

(** What the floor on [bar_space] gives each bar, whatever the width. *)
Lemma layout_bars_at_least_half_minimum (tw : Z) :
  5 <= cpu_bar_w (layout tw) /\ 5 <= mem_bar_w (layout tw).
Proof.
  rewrite layout_mem_bar_w, layout_cpu_bar_w, layout_bar_space.
  unfold MIN_BAR_WIDTH. Z.div_mod_to_equations. lia.
Qed.

(** Below 74 columns the CPU bar is narrower than [MIN_BAR_WIDTH]. *)
Lemma layout_cpu_bar_below_minimum (tw : Z) :
  tw < 74 -> cpu_bar_w (layout tw) < MIN_BAR_WIDTH.
Proof.
  intros H. rewrite layout_cpu_bar_w, layout_bar_space.
  unfold MIN_BAR_WIDTH. Z.div_mod_to_equations. lia.
Qed.

End LayoutFacts.

(** C1. The claim asks for both bar widths to be at least [MIN_BAR_WIDTH]
    at every terminal width.  The code floors the sum of the two widths
    instead: on a terminal of 40 columns [bar_space] is [MIN_BAR_WIDTH] and
    each bar gets 5 columns, below the minimum of 10. *)
Theorem layout_narrow_terminal_halves_minimum :
  bar_space (layout 40) = MIN_BAR_WIDTH /\
  cpu_bar_w (layout 40) = 5 /\
  mem_bar_w (layout 40) = 5 /\
  cpu_bar_w (layout 40) < MIN_BAR_WIDTH /\
  mem_bar_w (layout 40) < MIN_BAR_WIDTH.
Proof. repeat split. Qed.

(** C2. From 74 columns on (the reserved 54 plus twice the minimum bar
    width) the two bars fit in what the fixed columns leave, each is at
    least [MIN_BAR_WIDTH] wide, the CPU bar is the floor of half the bar
    space and the memory bar the rest, so it takes the odd column. *)
Theorem layout_wide_terminal (tw : Z) :
  reserved (layout tw) + 2 * MIN_BAR_WIDTH <= tw ->
  reserved (layout tw) + 2 * MIN_BAR_WIDTH = 74 /\
  cpu_bar_w (layout tw) + mem_bar_w (layout tw) <= tw - reserved (layout tw) /\
  MIN_BAR_WIDTH <= cpu_bar_w (layout tw) /\
  MIN_BAR_WIDTH <= mem_bar_w (layout tw) /\
  bar_space (layout tw) = tw - reserved (layout tw) /\
  cpu_bar_w (layout tw) = bar_space (layout tw) / 2 /\
  mem_bar_w (layout tw) = bar_space (layout tw) - cpu_bar_w (layout tw) /\
  mem_bar_w (layout tw) = cpu_bar_w (layout tw) + bar_space (layout tw) mod 2.
Proof.
  rewrite layout_mem_bar_w, layout_cpu_bar_w, layout_bar_space, layout_reserved.
  unfold MIN_BAR_WIDTH. intros H.
  repeat split; Z.div_mod_to_equations; lia.
Qed.

Lemma layout_wide_terminal_witness :
  reserved (layout 81) + 2 * MIN_BAR_WIDTH <= 81 /\
  cpu_bar_w (layout 81) + mem_bar_w (layout 81) <= 81 - reserved (layout 81) /\
  MIN_BAR_WIDTH <= cpu_bar_w (layout 81) /\
  MIN_BAR_WIDTH <= mem_bar_w (layout 81).
Proof.
  assert (H : reserved (layout 81) + 2 * MIN_BAR_WIDTH <= 81)
    by (vm_compute; discriminate).
  split; [exact H |].
  destruct (layout_wide_terminal 81 H) as (_ & Hfit & Hcpu & Hmem & _).
  exact (conj Hfit (conj Hcpu Hmem)).
Defined.

(** ** The proportional bar *)

(** C6. For a value between 0 and 100 and a width of at least 1 the bar has
    [width + 2] characters, and a larger value never gives fewer hashes. *)
Theorem proportion_bar_length_monotone (v v' : Q) (w : Z) :
  (0 <= v)%Q -> (v <= v')%Q -> (v' <= 100)%Q -> 1 <= w ->
  Py.len (proportion_bar v w) = w + 2 /\
  Py.len (proportion_bar v' w) = w + 2 /\
  (Py.count "#" (proportion_bar v w)
   <= Py.count "#" (proportion_bar v' w))%nat.
Proof.
  intros H0 Hv H100 Hw. repeat split.
  - apply proportion_bar_len. lia.
  - apply proportion_bar_len. lia.
  - rewrite !proportion_bar_count.
    apply Z2Nat.inj_le.
    + apply filled_range. lia.
    + apply filled_range. lia.
    + apply filled_mono; [lia | exact Hv].
Qed.

Lemma proportion_bar_length_monotone_witness :
  Py.len (proportion_bar (25 # 1) 8) = 10 /\
  Py.len (proportion_bar (75 # 1) 8) = 10 /\
  (Py.count "#" (proportion_bar (25 # 1) 8)
   <= Py.count "#" (proportion_bar (75 # 1) 8))%nat.
Proof.
  apply (proportion_bar_length_monotone (25 # 1) (75 # 1) 8);
    vm_compute; discriminate.
Defined.

(** C7. The value is clamped to [0, 100] before the fill is computed; the
    number of hashes is [round] of the float [(clamped / 100.0) * width],
    as the code computes it; there is none at 0 and there are [width] of
    them from 100 on. *)
Theorem proportion_bar_clamped_fill (v : Q) (w : Z) :
  1 <= w ->
  proportion_bar v w = proportion_bar (clamp v 0 100) w /\
  Z.of_nat (Py.count "#" (proportion_bar v w))
    = Py.round (Float.mul (Float.div (clamp v 0 100) 100) (Float.of_int w)) /\
  Py.count "#" (proportion_bar 0 w) = 0%nat /\
  ((100 <= v)%Q -> Z.of_nat (Py.count "#" (proportion_bar v w)) = w).
Proof.
  intros Hw.
  assert (Hf : forall u, 0 <= filled u w) by (intros u; apply filled_range; lia).
  repeat split.
  - rewrite !proportion_bar_unfold.
    assert (E : filled (clamp v 0 100) w = filled v w).
    { rewrite !filled_unfold. apply round_compat, fill_ratio_compat.
      apply clamp_inside, clamp_range. lra. }
    rewrite E. reflexivity.
  - rewrite proportion_bar_count, Z2Nat.id by apply Hf. reflexivity.
  - rewrite proportion_bar_count, filled_low; [reflexivity | lra].
  - intros Hv. rewrite proportion_bar_count, Z2Nat.id by apply Hf.
    apply filled_high, Hv.
Qed.

Lemma proportion_bar_clamped_fill_witness :
  Z.of_nat (Py.count "#" (proportion_bar 70 45)) = 31 /\
  proportion_bar (250 # 1) 7 = "[#######]" /\
  proportion_bar (250 # 1) 7 = proportion_bar (clamp (250 # 1) 0 100) 7.
Proof.
  split; [| split].
  - destruct (proportion_bar_clamped_fill 70 45) as (_ & Hfill & _);
      [vm_compute; discriminate |].
    rewrite Hfill. vm_compute. reflexivity.
  - vm_compute. reflexivity.
  - apply (proportion_bar_clamped_fill (250 # 1) 7). vm_compute; discriminate.
Defined.

(** ** Rows of the table *)

Section Rows.

Lemma In_slice_to {A : Type} (l : list A) (n : Z) (x : A) :
  In x (PySeq.slice_to l n) -> In x l.
Proof.
  assert (Hk : forall k, In x (firstn k l) -> In x l).
  { intros k H. rewrite <- (firstn_skipn k l). apply in_or_app. now left. }
  unfold PySeq.slice_to. destruct (0 <=? n); apply Hk.
Qed.

Lemma slice_to_all {A : Type} (l : list A) (n : Z) :
  Z.of_nat (List.length l) <= n -> PySeq.slice_to l n = l.
Proof.
  intros H. unfold PySeq.slice_to.
  destruct (Z.leb_spec 0 n); [| lia]. apply firstn_all2. lia.
Qed.

(** Length of a data row: the fixed columns, the two percent signs and
    the two bars. *)
Lemma line_len (tw : Z) (p : ProcRecord) :
  Py.len (line (layout tw) p) =
  6 + 1 + 26 + 1 + Z.max (Py.len (Py.format_1f (cpu p))) 6 + 2
    + cpu_bar_w (layout tw) + 1
    + Z.max (Py.len (Py.format_1f (mem p))) 6 + 2 + mem_bar_w (layout tw).
Proof.
  destruct (layout_bars_at_least_half_minimum tw) as [Hc Hm].
  unfold line.
  change (pid_w (layout tw)) with 6. change (name_w (layout tw)) with 26.
  change (cpu_pct_w (layout tw)) with 6.
  change (mem_pct_w (layout tw)) with 6.
  unfold MAX_NAME_LEN.
  rewrite !len_append, !len_ljust, !len_rjust, !proportion_bar_len by lia.
  rewrite !len_str_slice_to by lia.
  change (Py.len " ") with 1. change (Py.len "% ") with 2.
  pose proof (len_nonneg (Py.str (pid p))).
  pose proof (len_nonneg (name p)). lia.
Qed.

(** Length of the header row: bar columns two wider than the bars. *)
Lemma header_len (tw : Z) :
  Py.len (header (layout tw)) =
  6 + 1 + 26 + 1 + 6 + 1 + (cpu_bar_w (layout tw) + 2) + 1 + 6 + 1
    + (mem_bar_w (layout tw) + 2).
Proof.
  destruct (layout_bars_at_least_half_minimum tw) as [Hc Hm].
  unfold header.
  change (pid_w (layout tw)) with 6. change (name_w (layout tw)) with 26.
  change (cpu_pct_w (layout tw)) with 6.
  change (mem_pct_w (layout tw)) with 6.
  rewrite !len_append, !len_ljust, !len_rjust.
  change (Py.len " ") with 1. change (Py.len "PID") with 3.
  change (Py.len "NAME") with 4. change (Py.len "CPU%") with 4.
  change (Py.len "MEM%") with 4. change (Py.len "CPU BAR") with 7.
  change (Py.len "MEM BAR") with 7. lia.
Qed.

Lemma append_assoc (s t u : string) : (s ++ t) ++ u = s ++ (t ++ u).
Proof. induction s as [| c s IH]; simpl; [reflexivity | now rewrite IH]. Qed.

(** The row is a head of 42 characters, the CPU bar, 9 characters and the
    memory bar, when the percentages fit their columns. *)
Lemma line_split (tw : Z) (p : ProcRecord) :
  Py.len (Py.format_1f (cpu p)) <= 6 ->
  Py.len (Py.format_1f (mem p)) <= 6 ->
  exists head mid,
    line (layout tw) p
    = head ++ proportion_bar (cpu p) (cpu_bar_w (layout tw) - 2)
        ++ mid ++ proportion_bar (mem p) (mem_bar_w (layout tw) - 2) /\
    Py.len head = 42 /\ Py.len mid = 9.
Proof.
  intros Hc Hm.
  exists (Py.ljust (PySeq.str_slice_to (Py.str (pid p)) 6) 6 ++ " "
          ++ Py.ljust (PySeq.str_slice_to (name p) MAX_NAME_LEN) 26 ++ " "
          ++ Py.rjust (Py.format_1f (cpu p)) 6 ++ "% "),
         (" " ++ Py.rjust (Py.format_1f (mem p)) 6 ++ "% ").
  split; [| split].
  - unfold line.
    change (pid_w (layout tw)) with 6. change (name_w (layout tw)) with 26.
    change (cpu_pct_w (layout tw)) with 6.
    change (mem_pct_w (layout tw)) with 6.
    rewrite !append_assoc. reflexivity.
  - unfold MAX_NAME_LEN.
    rewrite !len_append, !len_ljust, !len_rjust, !len_str_slice_to by lia.
    change (Py.len " ") with 1. change (Py.len "% ") with 2.
    pose proof (len_nonneg (Py.str (pid p))).
    pose proof (len_nonneg (name p)). lia.
  - rewrite !len_append, !len_rjust.
    change (Py.len " ") with 1. change (Py.len "% ") with 2. lia.
Qed.

End Rows.

(** ** Percentages that fit their column *)

Section FormatWidth.

(** A check of the numbers from 0 up to [k], one after the other. *)
Lemma iter_check (P : Z -> bool) (k : N) :
  snd (N.iter k (fun s => (fst s + 1, snd s && P (fst s))) (0, true)) = true ->
  forall n, 0 <= n < Z.of_N k -> P n = true.
Proof.
  set (step := fun s : Z * bool => (fst s + 1, snd s && P (fst s))).
  assert (H : forall j,
             fst (N.iter j step (0, true)) = Z.of_N j /\
             (snd (N.iter j step (0, true)) = true ->
              forall n, 0 <= n < Z.of_N j -> P n = true)).
  { intros j. induction j as [| j [IH1 IH2]] using N.peano_ind.
    - split; [reflexivity |]. intros _ n Hn. simpl in Hn. lia.
    - rewrite N.iter_succ. unfold step at 1 3. cbn [fst snd]. split.
      + rewrite IH1. lia.
      + intros Hb n Hn. apply andb_true_iff in Hb. destruct Hb as [Hb Hp].
        destruct (Z.eq_dec n (Z.of_N j)) as [-> | Hne].
        * rewrite <- IH1. exact Hp.
        * apply IH2; [exact Hb | lia]. }
  intros Hk. apply (H k), Hk.
Qed.

Lemma str_len_4 (n : Z) : 0 <= n < 10000 -> Py.len (Py.str n) <= 4.
Proof.
  intros Hn. apply Z.leb_le.
  apply (iter_check (fun n => Py.len (Py.str n) <=? 4) 10000);
    [vm_compute; reflexivity | exact Hn].
Qed.

Lemma str_len_1 (n : Z) : 0 <= n < 10 -> Py.len (Py.str n) <= 1.
Proof.
  intros Hn. apply Z.leb_le.
  apply (iter_check (fun n => Py.len (Py.str n) <=? 1) 10);
    [vm_compute; reflexivity | exact Hn].
Qed.

Lemma round_below (x : Q) (z : Z) :
  (x < inject_Z z + (1 # 2))%Q -> Py.round x <= z.
Proof.
  intros H. pose proof (Qfloor_le x) as Hf.
  assert (Hz : (Qfloor x < z + 1)%Z).
  { rewrite Zlt_Qlt, inject_Z_plus. change (inject_Z 1) with 1%Q. lra. }
  unfold Py.round.
  destruct (Qcompare_spec (x - inject_Z (Qfloor x)) (1 # 2)) as [E | E | E];
    [destruct (Z.even (Qfloor x)) | |]; try lia;
    (assert (Qfloor x < z)%Z; [rewrite Zlt_Qlt; lra | lia]).
Qed.

(** A percentage from 0 up to, but excluding, 9999.95 prints in at most
    six characters. *)
Lemma format_1f_fits (x : Q) :
  (0 <= x)%Q -> (x < 999995 # 100)%Q -> Py.len (Py.format_1f x) <= 6.
Proof.
  intros H0 Hx. unfold Py.format_1f.
  assert (Hlo : 0 <= Py.round (x * 10)).
  { change (Py.round 0 <= Py.round (x * 10)). apply round_mono. lra. }
  assert (Hhi : Py.round (x * 10) <= 99999).
  { apply round_below. change (inject_Z 99999) with 99999%Q. lra. }
  destruct (Qcompare_spec x 0); try (exfalso; lra);
    rewrite !len_append; change (Py.len "") with 0;
    change (Py.len ".") with 1;
    pose proof (str_len_4 (Z.abs (Py.round (x * 10)) / 10));
    pose proof (str_len_1 (Z.abs (Py.round (x * 10)) mod 10));
    assert (0 <= Z.abs (Py.round (x * 10)) / 10 < 10000)
      by (Z.div_mod_to_equations; lia);
    assert (0 <= Z.abs (Py.round (x * 10)) mod 10 < 10)
      by (Z.div_mod_to_equations; lia);
    lia.
Qed.

End FormatWidth.

(** C10. On a terminal of at least 64 columns, a record whose two
    percentages format to at most 6 characters (those from 0 up to, but
    excluding, 9999.95 do) gives a data row of exactly [term_width - 3]
    characters, within the terminal width.  The row is 42 characters, the
    CPU bar, 9 characters and the memory bar; the bars are what
    [proportion_bar] returns for the widths [cpu_bar_w - 2] and
    [mem_bar_w - 2] and have [cpu_bar_w] and [mem_bar_w] characters with
    their brackets. *)
Theorem data_row_width (tw top_n : Z) (procs : list ProcRecord) :
  64 <= tw ->
  (forall p, In p procs ->
     Py.len (Py.format_1f (cpu p)) <= 6 /\ Py.len (Py.format_1f (mem p)) <= 6) ->
  (forall r, In r (data_rows (layout tw) procs top_n) ->
     Py.len r = tw - 3 /\ Py.len r <= tw /\
     exists p head mid,
       In p procs /\
       r = head ++ proportion_bar (cpu p) (cpu_bar_w (layout tw) - 2)
             ++ mid ++ proportion_bar (mem p) (mem_bar_w (layout tw) - 2) /\
       Py.len head = 42 /\ Py.len mid = 9 /\
       Py.len (proportion_bar (cpu p) (cpu_bar_w (layout tw) - 2))
       = cpu_bar_w (layout tw) /\
       Py.len (proportion_bar (mem p) (mem_bar_w (layout tw) - 2))
       = mem_bar_w (layout tw)) /\
  (forall x, (0 <= x)%Q -> (x < 999995 # 100)%Q ->
             Py.len (Py.format_1f x) <= 6).
Proof.
  intros Htw Hfmt.
  destruct (layout_bars_at_least_half_minimum tw) as [Hc Hm]. split.
  - intros r Hr. unfold data_rows in Hr. apply in_map_iff in Hr.
    destruct Hr as (p & <- & Hp). apply In_slice_to in Hp.
    destruct (Hfmt p Hp) as [Hcpu Hmem].
    split; [| split].
    + rewrite line_len, layout_mem_bar_w, layout_bar_space.
      unfold MIN_BAR_WIDTH. lia.
    + rewrite line_len, layout_mem_bar_w, layout_bar_space.
      unfold MIN_BAR_WIDTH. lia.
    + destruct (line_split tw p Hcpu Hmem) as (head & mid & E & Hh & Hmid).
      exists p, head, mid.
      rewrite !proportion_bar_len by lia. repeat split; trivial; lia.
  - apply format_1f_fits.
Qed.

Lemma data_row_width_witness :
  Py.len (line (layout 80) (mkRecord 1 "init" (125 # 10) (3 # 10))) = 80 - 3 /\
  Py.len (line (layout 80) (mkRecord 1 "init" (125 # 10) (3 # 10))) <= 80.
Proof.
  destruct (data_row_width 80 10 [mkRecord 1 "init" (125 # 10) (3 # 10)])
    as [Hrows _].
  - vm_compute; discriminate.
  - intros p [<- | []]. split; vm_compute; discriminate.
  - destruct (Hrows (line (layout 80) (mkRecord 1 "init" (125 # 10) (3 # 10))))
      as (Hlen & Hfit & _); [left; reflexivity |].
    exact (conj Hlen Hfit).
Defined.

(** C10, as first stated, takes every non-negative percentage below 10000
    to format to at most 6 characters.  9999.96875 is such a percentage
    and a float; it prints as 10000.0, and on a terminal of 80 columns its
    row has 78 characters, not 77. *)
Lemma data_row_width_counterexample :
  64 <= 80 /\
  (0 <= cpu (mkRecord 1 "init" (319999 # 32) 0))%Q /\
  (cpu (mkRecord 1 "init" (319999 # 32) 0) < 10000)%Q /\
  Py.format_1f (cpu (mkRecord 1 "init" (319999 # 32) 0)) = "10000.0" /\
  In (line (layout 80) (mkRecord 1 "init" (319999 # 32) 0))
     (data_rows (layout 80) [mkRecord 1 "init" (319999 # 32) 0] 10) /\
  Py.len (line (layout 80) (mkRecord 1 "init" (319999 # 32) 0)) = 78 /\
  Py.len (line (layout 80) (mkRecord 1 "init" (319999 # 32) 0)) <> 80 - 3.
Proof.
  split; [vm_compute; discriminate |].
  split; [vm_compute; discriminate |].
  split; [vm_compute; reflexivity |].
  split; [vm_compute; reflexivity |].
  split; [left; reflexivity |].
  split; [vm_compute; reflexivity | vm_compute; discriminate].
Qed.

(** ** [list.sort] *)

Section SortFacts.
Context {A K : Type}.
Variable key : A -> K.
Variable lt : K -> K -> bool.

Local Abbreviation insert := (PySeq.insert key lt).
Local Abbreviation stable_sort := (PySeq.stable_sort key lt).
Local Abbreviation sort := (PySeq.sort key lt).
Local Abbreviation asc := (PySeq.asc key lt).
Local Abbreviation desc := (PySeq.desc key lt).

Lemma insert_perm (x : A) (l : list A) : Permutation (x :: l) (insert x l).
Proof.
  induction l as [| y l IH]; simpl; [apply Permutation_refl |].
  destruct (lt (key y) (key x)); [| apply Permutation_refl].
  eapply perm_trans; [apply perm_swap |]. apply perm_skip, IH.
Qed.

Lemma stable_sort_perm (l : list A) : Permutation l (stable_sort l).
Proof.
  induction l as [| x l IH]; simpl; [apply perm_nil |].
  eapply perm_trans; [apply perm_skip, IH | apply insert_perm].
Qed.

Lemma sort_perm (r : bool) (l : list A) : Permutation l (sort r l).
Proof.
  destruct r; simpl; [| apply stable_sort_perm].
  eapply perm_trans; [apply Permutation_rev |].
  eapply perm_trans; [apply stable_sort_perm | apply Permutation_rev].
Qed.

(** *** Stability: items that never compare strictly keep their order *)

Section Stable.
Variable P : A -> bool.
Hypothesis P_tied :
  forall x y, P x = true -> P y = true -> lt (key x) (key y) = false.

Lemma filter_insert (x : A) (l : list A) :
  filter P (insert x l) = filter P (x :: l).
Proof.
  induction l as [| y l IH]; [reflexivity |].
  simpl PySeq.insert. destruct (lt (key y) (key x)) eqn:E; [| reflexivity].
  simpl in *. rewrite IH.
  destruct (P x) eqn:Px, (P y) eqn:Py; try reflexivity.
  rewrite (P_tied y x Py Px) in E. discriminate.
Qed.

Lemma filter_stable_sort (l : list A) :
  filter P (stable_sort l) = filter P l.
Proof.
  induction l as [| x l IH]; [reflexivity |].
  simpl PySeq.stable_sort. rewrite filter_insert. simpl. now rewrite IH.
Qed.

Lemma filter_sort (r : bool) (l : list A) :
  filter P (sort r l) = filter P l.
Proof.
  destruct r; simpl; [| apply filter_stable_sort].
  rewrite filter_rev, filter_stable_sort, filter_rev. apply rev_involutive.
Qed.
End Stable.

(** *** Order of the result, [<] being a strict weak order on the keys *)

Section Ordered.
Hypothesis lt_asym : forall a b, lt a b = true -> lt b a = false.
Hypothesis lt_negtrans :
  forall a b c, lt a b = false -> lt b c = false -> lt a c = false.

Lemma insert_sorted (x : A) (l : list A) :
  StronglySorted asc l -> StronglySorted asc (insert x l).
Proof.
  induction 1 as [| y l Hl IH Hy]; simpl.
  - constructor; constructor.
  - destruct (lt (key y) (key x)) eqn:E.
    + constructor; [exact IH |].
      apply (Permutation_Forall (insert_perm x l)).
      constructor; [apply lt_asym, E | exact Hy].
    + constructor; [constructor; assumption |].
      constructor; [exact E |].
      apply (Forall_impl _ (P := asc y)); [| exact Hy].
      intros z Hz. unfold PySeq.asc in *. apply (lt_negtrans _ (key y)); assumption.
Qed.

Lemma stable_sort_sorted (l : list A) : StronglySorted asc (stable_sort l).
Proof.
  induction l as [| x l IH]; simpl; [constructor | apply insert_sorted, IH].
Qed.

Lemma sorted_snoc (R : A -> A -> Prop) (l : list A) (x : A) :
  StronglySorted R l -> Forall (fun y => R y x) l ->
  StronglySorted R (l ++ [x]).
Proof.
  induction 1 as [| y l Hl IH Hy]; intros Hx; simpl.
  - constructor; constructor.
  - inversion Hx; subst. constructor; [apply IH; assumption |].
    apply Forall_app. split; [exact Hy | constructor; [assumption | constructor]].
Qed.

Lemma sorted_rev (l : list A) :
  StronglySorted asc l -> StronglySorted desc (rev l).
Proof.
  induction 1 as [| y l Hl IH Hy]; simpl; [constructor |].
  apply sorted_snoc; [exact IH |].
  apply Forall_rev. exact Hy.
Qed.

Lemma sort_reverse_sorted (l : list A) : StronglySorted desc (sort true l).
Proof. simpl. apply sorted_rev, stable_sort_sorted. Qed.
End Ordered.

End SortFacts.

(** ** Ranking *)

Section Ranking.
Local Open Scope Q_scope.

Lemma ltb_true (x y : Q) : PySeq.ltb x y = true <-> x < y.
Proof.
  unfold PySeq.ltb. destruct (Qcompare_spec x y); split; intros Hb;
    try reflexivity; try congruence; lra.
Qed.

Lemma ltb_false (x y : Q) : PySeq.ltb x y = false <-> y <= x.
Proof.
  unfold PySeq.ltb. destruct (Qcompare_spec x y); split; intros Hb;
    try reflexivity; try congruence; lra.
Qed.

Lemma tuple_ltb_false (a b : Q * Q) :
  PySeq.tuple_ltb a b = false <->
  fst b < fst a \/ (fst a == fst b /\ snd b <= snd a).
Proof.
  unfold PySeq.tuple_ltb. destruct (Qeq_bool (fst a) (fst b)) eqn:E.
  - apply Qeq_bool_iff in E. rewrite ltb_false. split.
    + intros H. right. split; assumption.
    + intros [H | [_ H]]; [exfalso; lra | exact H].
  - apply Qeq_bool_neq in E. rewrite ltb_false. split.
    + intros H. left. lra.
    + intros [H | [H _]]; [lra | contradiction].
Qed.

Lemma tuple_ltb_true (a b : Q * Q) :
  PySeq.tuple_ltb a b = true <->
  fst a < fst b \/ (fst a == fst b /\ snd a < snd b).
Proof.
  unfold PySeq.tuple_ltb. destruct (Qeq_bool (fst a) (fst b)) eqn:E.
  - apply Qeq_bool_iff in E. rewrite ltb_true. split.
    + intros H. right. split; assumption.
    + intros [H | [_ H]]; [exfalso; lra | exact H].
  - apply Qeq_bool_neq in E. rewrite ltb_true. split.
    + intros H. left. exact H.
    + intros [H | [H _]]; [exact H | contradiction].
Qed.

Lemma tuple_ltb_asym (a b : Q * Q) :
  PySeq.tuple_ltb a b = true -> PySeq.tuple_ltb b a = false.
Proof. rewrite tuple_ltb_true, tuple_ltb_false. intuition lra. Qed.

Lemma tuple_ltb_negtrans (a b c : Q * Q) :
  PySeq.tuple_ltb a b = false -> PySeq.tuple_ltb b c = false ->
  PySeq.tuple_ltb a c = false.
Proof. rewrite !tuple_ltb_false. intuition lra. Qed.

Lemma desc_ranked_before (a b : ProcRecord) :
  PySeq.desc sort_key PySeq.tuple_ltb a b <-> ranked_before a b.
Proof. unfold PySeq.desc, ranked_before. rewrite tuple_ltb_false. reflexivity. Qed.

Lemma tied_at_not_lt (c m : Q) (x y : ProcRecord) :
  tied_at c m x = true -> tied_at c m y = true ->
  PySeq.tuple_ltb (sort_key x) (sort_key y) = false.
Proof.
  unfold tied_at. rewrite !andb_true_iff, !Qeq_bool_iff.
  intros [Hx1 Hx2] [Hy1 Hy2]. apply tuple_ltb_false. simpl. right. lra.
Qed.

End Ranking.

(** C4. The ranking is a rearrangement of the sampled records in which
    every record is followed only by records with less CPU, or the same CPU
    and no more memory; on the three records of the example the order is
    (50,99), (50,1), (10,5). *)
Theorem rank_descending_cpu_then_mem (procs : list ProcRecord) :
  Permutation procs (rank procs) /\
  StronglySorted ranked_before (rank procs) /\
  (forall i1 n1 i2 n2 i3 n3,
     rank [mkRecord i1 n1 10 5; mkRecord i2 n2 50 1; mkRecord i3 n3 50 99]
     = [mkRecord i3 n3 50 99; mkRecord i2 n2 50 1; mkRecord i1 n1 10 5]).
Proof.
  split; [| split].
  - apply sort_perm.
  - assert (H : StronglySorted (PySeq.desc sort_key PySeq.tuple_ltb) (rank procs))
      by (apply sort_reverse_sorted;
          [apply tuple_ltb_asym | apply tuple_ltb_negtrans]).
    induction H as [| a l Hl IH Ha]; constructor; [exact IH |].
    apply (Forall_impl _ (P := PySeq.desc sort_key PySeq.tuple_ltb a));
      [| exact Ha].
    intros b. apply desc_ranked_before.
  - intros i1 n1 i2 n2 i3 n3. reflexivity.
Qed.

(** C5. The ranking is stable: the records that have exactly the same CPU
    and memory percentages come out in the order in which they went in,
    although the sort runs with [reverse=True]. *)
Theorem rank_stable (procs : list ProcRecord) (c m : Q) :
  filter (tied_at c m) (rank procs) = filter (tied_at c m) procs.
Proof. apply filter_sort, tied_at_not_lt. Qed.

(** ** Sampling *)

Section Sampling.

Lemma sample_pid (p : Process) (r : ProcRecord) :
  sample p = inr r -> pid r = info_pid p.
Proof.
  unfold sample, bind, ret.
  destruct (cpu_percent p); [discriminate |].
  destruct (memory_percent p); [discriminate |].
  intros H. injection H as <-. reflexivity.
Qed.

Lemma record_of_pids (table : list Process) :
  map pid (flat_map record_of table)
  = map info_pid (filter accessible table).
Proof.
  induction table as [| p table IH]; [reflexivity |].
  simpl. rewrite map_app, IH. unfold record_of, accessible.
  destruct (sample p) as [e | r] eqn:E; [reflexivity |].
  simpl. now rewrite (sample_pid p r E).
Qed.

(** The loop appends the records of the table to what it has, provided
    no query raises anything but the two expected errors. *)
Lemma fetch_loop_skips (table : list Process) (procs : list ProcRecord) :
  (forall p, In p table -> accessible p = true \/ transient p) ->
  fetch_loop table procs = inr (procs ++ flat_map record_of table)%list.
Proof.
  revert procs. induction table as [| p table IH]; intros procs H; simpl.
  - now rewrite app_nil_r.
  - assert (Hp := H p (or_introl eq_refl)).
    assert (Ht : forall q, In q table -> accessible q = true \/ transient q)
      by (intros q Hq; apply H; now right).
    unfold accessible, transient, signals, record_of in *.
    destruct (sample p) as [[| |] | r].
    + now apply IH.
    + now apply IH.
    + destruct Hp as [Hp | [Hp | Hp]]; discriminate.
    + rewrite IH by exact Ht. now rewrite <- app_assoc.
Qed.

End Sampling.

(** C8. When the metric queries of some processes of the table signal
    "no such process" or "access denied" (and no query fails otherwise),
    [fetch_processes] returns normally; the list has one record for every
    accessible process, in table order, and none for a process that
    signalled; a pid that is not in this tick's table is not in its
    output. *)
Theorem fetch_processes_skips_transient (table : list Process) :
  (forall p, In p table -> accessible p = true \/ transient p) ->
  exists procs,
    fetch_processes table = inr procs /\
    procs = flat_map record_of table /\
    map pid procs = map info_pid (filter accessible table) /\
    (forall p, In p table -> accessible p = true -> In (info_pid p) (map pid procs)) /\
    (forall p, In p table -> transient p -> record_of p = []) /\
    (NoDup (map info_pid table) ->
     forall p, In p table -> transient p -> ~ In (info_pid p) (map pid procs)) /\
    (forall i, ~ In i (map info_pid table) -> ~ In i (map pid procs)).
Proof.
  intros H. exists (flat_map record_of table).
  assert (Hsub : forall i, In i (map info_pid (filter accessible table)) ->
                           exists p, info_pid p = i /\ In p table /\
                                     accessible p = true).
  { intros i Hi. apply in_map_iff in Hi. destruct Hi as (p & Hp & Hin).
    apply filter_In in Hin. exists p. tauto. }
  assert (Htr : forall p, transient p -> accessible p = false).
  { intros p [Hp | Hp]; unfold accessible; rewrite Hp; reflexivity. }
  split; [| split; [| split; [| split; [| split; [| split]]]]].
  - apply (fetch_loop_skips table [] H).
  - reflexivity.
  - apply record_of_pids.
  - intros p Hin Hacc. rewrite record_of_pids. apply in_map, filter_In. tauto.
  - intros p _ [Hp | Hp]; unfold record_of; rewrite Hp; reflexivity.
  - intros Hnd p Hin Hp Hout. rewrite record_of_pids in Hout.
    destruct (Hsub _ Hout) as (q & Hq & Hqin & Hacc).
    assert (q = p).
    { clear - Hnd Hq Hqin Hin. induction table as [| x t IH]; [contradiction |].
      simpl in Hnd. inversion Hnd as [| ? ? Hx Ht]; subst.
      destruct Hqin as [-> | Hqin], Hin as [-> | Hin]; try reflexivity.
      - exfalso. apply Hx. rewrite Hq. now apply in_map.
      - exfalso. apply Hx. rewrite <- Hq. now apply in_map.
      - now apply IH. }
    subst q. rewrite (Htr p Hp) in Hacc. discriminate.
  - intros i Hi Hout. rewrite record_of_pids in Hout.
    destruct (Hsub _ Hout) as (q & Hq & Hqin & _).
    apply Hi. rewrite <- Hq. now apply in_map.
Qed.

Lemma fetch_processes_skips_transient_witness :
  exists procs,
    fetch_processes
      [mkProcess 1 (Some "init") (inr 0%Q) (inr (1 # 10));
       mkProcess 7 (Some "gone") (inl NoSuchProcess) (inr 0%Q);
       mkProcess 8 None (inr 0%Q) (inl AccessDenied);
       mkProcess 9 (Some "sh") (inr (25 # 10)) (inr (3 # 10))] = inr procs /\
    map pid procs = [1; 9].
Proof.
  destruct (fetch_processes_skips_transient
              [mkProcess 1 (Some "init") (inr 0%Q) (inr (1 # 10));
               mkProcess 7 (Some "gone") (inl NoSuchProcess) (inr 0%Q);
               mkProcess 8 None (inr 0%Q) (inl AccessDenied);
               mkProcess 9 (Some "sh") (inr (25 # 10)) (inr (3 # 10))])
    as (procs & Hret & _ & Hpids & _).
  - intros p [<- | [<- | [<- | [<- | []]]]].
    + left; reflexivity.
    + right; left; reflexivity.
    + right; right; reflexivity.
    + left; reflexivity.
  - exists procs. split; [exact Hret | exact Hpids].
Defined.

(** ** The printed table *)

Section Table.
Variable logo : string.

(** What [draw] prints: five lines, the data rows, two lines. *)
Lemma draw_unfold (procs : list ProcRecord) (tw top_n : Z) (ri : Q)
      (total : Z) :
  draw logo procs tw top_n ri total =
  ([logo; title top_n ri; Py.mul "-" tw; header (layout tw); Py.mul "-" tw]
     ++ data_rows (layout tw) procs top_n
     ++ [Py.mul "-" tw; footer total top_n procs])%list.
Proof. reflexivity. Qed.

(** The header row is two characters longer than a data row whose
    percentages fit their columns, at every terminal width. *)
Lemma header_two_longer (tw : Z) (p : ProcRecord) :
  Py.len (Py.format_1f (cpu p)) <= 6 ->
  Py.len (Py.format_1f (mem p)) <= 6 ->
  Py.len (header (layout tw)) = Py.len (line (layout tw) p) + 2.
Proof. intros Hc Hm. rewrite header_len, line_len. lia. Qed.

End Table.

(** C9. With [top_n] at least 1 and greater than the number of records,
    [draw] prints one data row per record, all of them and nothing more,
    and the footer shows [min(top_n, len(procs))], the number of records. *)
Theorem draw_top_n_exceeds_records
        (logo : string) (procs : list ProcRecord) (tw top_n : Z) (ri : Q)
        (total : Z) :
  1 <= top_n -> Z.of_nat (List.length procs) < top_n ->
  draw logo procs tw top_n ri total =
  ([logo; title top_n ri; Py.mul "-" tw; header (layout tw); Py.mul "-" tw]
     ++ map (line (layout tw)) procs
     ++ [Py.mul "-" tw; footer total top_n procs])%list /\
  List.length (data_rows (layout tw) procs top_n) = List.length procs /\
  footer total top_n procs =
  "Processes: " ++ Py.str total ++ " | Showing top "
    ++ Py.str (Z.min top_n (Z.of_nat (List.length procs))) ++ " by CPU usage" /\
  Z.min top_n (Z.of_nat (List.length procs)) = Z.of_nat (List.length procs).
Proof.
  intros H1 Hn.
  assert (E : data_rows (layout tw) procs top_n = map (line (layout tw)) procs)
    by (unfold data_rows; rewrite slice_to_all by lia; reflexivity).
  split; [| split; [| split]].
  - rewrite draw_unfold, E. reflexivity.
  - rewrite E. apply length_map.
  - reflexivity.
  - lia.
Qed.

Lemma draw_top_n_exceeds_records_witness :
  draw "" [mkRecord 1 "init" 50 1; mkRecord 2 "sh" 10 5] 80 10 1 42 =
  ["";
   "ASCII Process Viewer " ++ em_dash
     ++ " top 10 processes by CPU (refresh 1.0s)";
   Py.mul "-" 80;
   "PID    NAME                         CPU% CPU BAR           MEM% MEM BAR        ";
   Py.mul "-" 80;
   "1      init                         50.0% [######     ]    1.0% [           ]";
   "2      sh                           10.0% [#          ]    5.0% [#          ]";
   Py.mul "-" 80;
   "Processes: 42 | Showing top 2 by CPU usage"].
Proof.
  destruct (draw_top_n_exceeds_records
              "" [mkRecord 1 "init" 50 1; mkRecord 2 "sh" 10 5] 80 10 1 42)
    as (Hdraw & _).
  - vm_compute; discriminate.
  - vm_compute; reflexivity.
  - rewrite Hdraw. reflexivity.
Defined.

(** C3. The claim asks for every header field to start at the offset, and
    to have the width, of the field below it.  On a terminal of 80 columns
    the header puts CPU BAR at offset 41 in a column of 15 characters while
    the row, whose percentage takes a seventh character for its sign, puts
    the 13 characters of the bar at offset 42; the MEM% fields start at 57
    and 56; the header is 79 characters long, the row 77. *)
Theorem header_misaligned_with_rows :
  header (layout 80) =
  "PID    NAME                         CPU% CPU BAR           MEM% MEM BAR        " /\
  line (layout 80) (mkRecord 1 "init" 0 0) =
  "1      init                          0.0% [           ]    0.0% [           ]" /\
  index 0 "CPU BAR" (header (layout 80)) = Some 41%nat /\
  index 0 "[" (line (layout 80) (mkRecord 1 "init" 0 0)) = Some 42%nat /\
  cpu_bar_w (layout 80) + 2 = 15 /\
  Py.len (proportion_bar 0 (cpu_bar_w (layout 80) - 2)) = 13 /\
  index 0 "  MEM%" (header (layout 80)) = Some 57%nat /\
  index 43 "   0.0%" (line (layout 80) (mkRecord 1 "init" 0 0)) = Some 56%nat /\
  Py.len (header (layout 80)) = 79 /\
  Py.len (line (layout 80) (mkRecord 1 "init" 0 0)) = 77.
Proof. repeat split. Qed.


(** * Further properties of the code *)

(** ** [clamp] and the fill of a bar *)

Section FillFacts.
Local Open Scope Q_scope.



End FillFacts.

(** X1. With its bounds in order, [clamp] returns a value between them,
    returns its argument (up to equality of numbers) when that is already
    between them, and clamping twice is clamping once. *)
Theorem clamp_in_bounds_fixes_range (v a b : Q) :
  (a <= b)%Q ->
  (a <= clamp v a b <= b)%Q /\
  ((a <= v <= b)%Q -> (clamp v a b == v)%Q) /\
  (clamp (clamp v a b) a b == clamp v a b)%Q.
Proof.
  intros Hab. split; [| split].
  - apply clamp_range, Hab.
  - apply clamp_inside.
  - apply clamp_inside, clamp_range, Hab.
Qed.

Lemma clamp_in_bounds_fixes_range_witness :
  (0 <= 100)%Q /\
  (0 <= clamp (250 # 1) 0 100 <= 100)%Q /\
  (clamp (clamp (250 # 1) 0 100) 0 100 == clamp (250 # 1) 0 100)%Q.
Proof.
  assert (H : (0 <= 100)%Q) by (vm_compute; discriminate).
  destruct (clamp_in_bounds_fixes_range (250 # 1) 0 100 H) as (Hr & _ & Hi).
  exact (conj H (conj Hr Hi)).
Defined.

(** X2. Called with its bounds out of order (the lower above the upper),
    [clamp] returns the lower bound whatever the value. *)
Theorem clamp_bounds_out_of_order (v a b : Q) :
  (b < a)%Q -> clamp v a b = a.
Proof.
  intros Hba. unfold clamp, Py.max, Py.min.
  destruct (Qcompare_spec v b);
    match goal with
    | |- context [Qcompare ?u a] => destruct (Qcompare_spec u a)
    end; try reflexivity; exfalso; lra.
Qed.

Lemma clamp_bounds_out_of_order_witness :
  (0 < 100)%Q /\ clamp 50 100 0 = 100%Q.
Proof.
  split; [reflexivity | apply clamp_bounds_out_of_order; reflexivity].
Defined.



(** X4. For a width of zero or more and every value, in range or not, the
    bar is made of [width] cells, hashes and blanks, and a larger value
    never gives fewer hashes. *)
Theorem proportion_bar_cells_monotone (v v' : Q) (w : Z) :
  0 <= w -> (v <= v')%Q ->
  Z.of_nat (Py.count "#" (proportion_bar v w))
  + Z.of_nat (Py.count " " (proportion_bar v w)) = w /\
  (Py.count "#" (proportion_bar v w)
   <= Py.count "#" (proportion_bar v' w))%nat.
Proof.
  intros Hw Hv.
  pose proof (filled_range v w Hw) as Hf.
  pose proof (filled_range v' w Hw) as Hf'.
  split.
  - rewrite proportion_bar_count.
    rewrite proportion_bar_unfold, !count_append. unfold Py.mul.
    change "#" with (String "#" ""). change " " with (String " " "").
    rewrite count_repeat_same, count_repeat_other by reflexivity.
    change (Py.count " " "[") with 0%nat. change (Py.count " " "]") with 0%nat.
    lia.
  - rewrite !proportion_bar_count. apply Z2Nat.inj_le; try lia.
    apply filled_mono; assumption.
Qed.

Lemma proportion_bar_cells_monotone_witness :
  Z.of_nat (Py.count "#" (proportion_bar (-5) 45))
  + Z.of_nat (Py.count " " (proportion_bar (-5) 45)) = 45 /\
  (Py.count "#" (proportion_bar (-5) 45)
   <= Py.count "#" (proportion_bar 170 45))%nat.
Proof.
  apply (proportion_bar_cells_monotone (-5) 170 45); vm_compute; discriminate.
Defined.


(** ** Sampling: what is raised, what is skipped, what is kept *)

Section SamplingFacts.

Lemma fetch_loop_raises (table : list Process) (p : Process) :
  In p table -> sample p = inl OtherError ->
  forall procs, fetch_loop table procs = inl OtherError.
Proof.
  intros Hin Hp. induction table as [| q table IH]; [contradiction |].
  intros procs. simpl.
  destruct Hin as [-> | Hin].
  - rewrite Hp. reflexivity.
  - destruct (sample q) as [[| |] | r]; try apply IH; trivial.
Qed.

Lemma table_cases (table : list Process) :
  (forall p, In p table -> accessible p = true \/ transient p) \/
  (exists p, In p table /\ sample p = inl OtherError).
Proof.
  induction table as [| q table [IH | (p & Hin & Hp)]].
  - left. intros p [].
  - destruct (sample q) as [[| |] | r] eqn:E.
    + left. intros p [<- | Hp]; [right; left; exact E | now apply IH].
    + left. intros p [<- | Hp]; [right; right; exact E | now apply IH].
    + right. exists q. split; [now left | exact E].
    + left. intros p [<- | Hp]; [| now apply IH].
      left. unfold accessible. now rewrite E.
  - right. exists p. split; [now right | exact Hp].
Qed.

Lemma fetch_loop_drop (t1 t2 : list Process) (p : Process) :
  transient p ->
  forall procs,
    fetch_loop (t1 ++ p :: t2) procs = fetch_loop (t1 ++ t2) procs.
Proof.
  intros Hp. induction t1 as [| q t1 IH]; intros procs; simpl.
  - destruct Hp as [Hp | Hp]; unfold signals in Hp; rewrite Hp; reflexivity.
  - destruct (sample q) as [[| |] | r]; try apply IH; reflexivity.
Qed.

Lemma prefix_short (n : nat) (s : string) :
  (String.length s <= n)%nat -> substring 0 n s = s.
Proof.
  revert n. induction s as [| c s IH]; intros [| n] H; simpl in *;
    try reflexivity; try lia.
  f_equal. apply IH. lia.
Qed.

Lemma sample_name (p : Process) (r : ProcRecord) :
  sample p = inr r ->
  name r = PySeq.str_slice_to (name_or_empty (info_name p)) MAX_NAME_LEN.
Proof.
  unfold sample, bind, ret.
  destruct (cpu_percent p); [discriminate |].
  destruct (memory_percent p); [discriminate |].
  intros H. injection H as <-. reflexivity.
Qed.

Lemma fetch_returns_records (table : list Process) (procs : list ProcRecord) :
  fetch_processes table = inr procs -> procs = flat_map record_of table.
Proof.
  intros H. destruct (table_cases table) as [Hok | (p & Hin & Hp)].
  - unfold fetch_processes in H. rewrite (fetch_loop_skips table [] Hok) in H.
    injection H as <-. reflexivity.
  - unfold fetch_processes in H.
    rewrite (fetch_loop_raises table p Hin Hp) in H. discriminate.
Qed.

End SamplingFacts.

(** X6. [fetch_processes] raises exactly when the metric queries of some
    process raise something other than "no such process" and "access
    denied", and then it raises that, whatever the processes after it; the
    two expected errors never leave the function. *)
Theorem fetch_processes_raises_only_unexpected (table : list Process) :
  (forall e, fetch_processes table = inl e -> e = OtherError) /\
  (fetch_processes table = inl OtherError <->
   exists p, In p table /\ sample p = inl OtherError).
Proof.
  destruct (table_cases table) as [Hok | (p & Hin & Hp)].
  - pose proof (fetch_loop_skips table [] Hok) as E.
    fold (fetch_processes table) in E. rewrite E. split.
    + intros e H. discriminate.
    + split; [discriminate |].
      intros (p & Hin & Hp).
      destruct (Hok p Hin) as [Ha | [Ht | Ht]].
      * unfold accessible in Ha. rewrite Hp in Ha. discriminate.
      * unfold signals in Ht. rewrite Hp in Ht. discriminate.
      * unfold signals in Ht. rewrite Hp in Ht. discriminate.
  - pose proof (fetch_loop_raises table p Hin Hp []) as E.
    fold (fetch_processes table) in E. rewrite E. split.
    + intros e H. injection H as <-. reflexivity.
    + split; [| reflexivity]. intros _. exists p. split; assumption.
Qed.

(** X7. A process whose queries signal "no such process" or "access
    denied" has no effect on the outcome: with or without it in the table,
    [fetch_processes] returns the same list or raises the same error. *)
Theorem fetch_processes_ignores_transient
        (t1 t2 : list Process) (p : Process) :
  transient p ->
  fetch_processes (t1 ++ p :: t2) = fetch_processes (t1 ++ t2).
Proof. intros Hp. apply fetch_loop_drop, Hp. Qed.

Lemma fetch_processes_ignores_transient_witness :
  fetch_processes
    [mkProcess 1 (Some "init") (inr 0%Q) (inr (1 # 10));
     mkProcess 7 (Some "gone") (inl NoSuchProcess) (inr 0%Q);
     mkProcess 9 (Some "sh") (inr (25 # 10)) (inl OtherError)]
  = fetch_processes
      [mkProcess 1 (Some "init") (inr 0%Q) (inr (1 # 10));
       mkProcess 9 (Some "sh") (inr (25 # 10)) (inl OtherError)].
Proof.
  apply (fetch_processes_ignores_transient
           [mkProcess 1 (Some "init") (inr 0%Q) (inr (1 # 10))]
           [mkProcess 9 (Some "sh") (inr (25 # 10)) (inl OtherError)]
           (mkProcess 7 (Some "gone") (inl NoSuchProcess) (inr 0%Q))).
  left. reflexivity.
Defined.

(** X8. Every record returned by [fetch_processes] has a name of at most
    [MAX_NAME_LEN] characters, a prefix of the process name (the empty
    string when the name is missing), so that the second truncation, in
    [draw], leaves it as it is. *)
Theorem fetch_processes_names_truncated
        (table : list Process) (procs : list ProcRecord) (r : ProcRecord) :
  fetch_processes table = inr procs -> In r procs ->
  Py.len (name r) <= MAX_NAME_LEN /\
  PySeq.str_slice_to (name r) MAX_NAME_LEN = name r /\
  exists p, In p table /\ sample p = inr r /\
            name r = substring 0 25 (name_or_empty (info_name p)).
Proof.
  intros Hret Hr. apply fetch_returns_records in Hret. subst procs.
  apply in_flat_map in Hr. destruct Hr as (p & Hin & Hr).
  unfold record_of in Hr. destruct (sample p) as [e | r'] eqn:E; [contradiction |].
  destruct Hr as [-> | []].
  pose proof (sample_name p r E) as Hn.
  assert (Hlen : Py.len (name r) <= MAX_NAME_LEN).
  { rewrite Hn, len_str_slice_to by (unfold MAX_NAME_LEN; lia). lia. }
  split; [exact Hlen | split].
  - unfold PySeq.str_slice_to, MAX_NAME_LEN in *. simpl (0 <=? 25).
    cbv iota. apply prefix_short. unfold Py.len in Hlen. lia.
  - exists p. split; [exact Hin | split; [exact E | exact Hn]].
Qed.

Lemma fetch_processes_names_truncated_witness :
  Py.len (name (mkRecord 4 "abcdefghijklmnopqrstuvwxy" 0 0)) <= MAX_NAME_LEN /\
  PySeq.str_slice_to (name (mkRecord 4 "abcdefghijklmnopqrstuvwxy" 0 0))
                     MAX_NAME_LEN
  = name (mkRecord 4 "abcdefghijklmnopqrstuvwxy" 0 0).
Proof.
  destruct (fetch_processes_names_truncated
              [mkProcess 4 (Some "abcdefghijklmnopqrstuvwxyz0123")
                         (inr 0%Q) (inr 0%Q)]
              [mkRecord 4 "abcdefghijklmnopqrstuvwxy" 0 0]
              (mkRecord 4 "abcdefghijklmnopqrstuvwxy" 0 0))
    as (Hlen & Hfix & _).
  - reflexivity.
  - left. reflexivity.
  - exact (conj Hlen Hfix).
Defined.

(** ** Ranking: lists already in order, and the first row *)

Section RankFacts.

Lemma stable_sort_sorted_fixed {A K : Type} (key : A -> K)
      (lt : K -> K -> bool) (l : list A) :
  StronglySorted (PySeq.asc key lt) l -> PySeq.stable_sort key lt l = l.
Proof.
  induction 1 as [| x l Hl IH Hx]; [reflexivity |].
  simpl. rewrite IH. destruct l as [| y l]; [reflexivity |].
  simpl. inversion Hx as [| ? ? Hy _]; subst.
  unfold PySeq.asc in Hy. rewrite Hy. reflexivity.
Qed.

Lemma sorted_desc_rev {A K : Type} (key : A -> K) (lt : K -> K -> bool)
      (l : list A) :
  StronglySorted (PySeq.desc key lt) l ->
  StronglySorted (PySeq.asc key lt) (rev l).
Proof.
  induction 1 as [| x l Hl IH Hx]; simpl; [constructor |].
  apply sorted_snoc; [exact IH |]. apply Forall_rev. exact Hx.
Qed.

Lemma sort_reverse_sorted_fixed {A K : Type} (key : A -> K)
      (lt : K -> K -> bool) (l : list A) :
  StronglySorted (PySeq.desc key lt) l -> PySeq.sort key lt true l = l.
Proof.
  intros H. simpl.
  rewrite (stable_sort_sorted_fixed key lt (rev l)) by now apply sorted_desc_rev.
  apply rev_involutive.
Qed.

Lemma rank_sorted_desc (procs : list ProcRecord) :
  StronglySorted (PySeq.desc sort_key PySeq.tuple_ltb) (rank procs).
Proof.
  apply sort_reverse_sorted; [apply tuple_ltb_asym | apply tuple_ltb_negtrans].
Qed.

End RankFacts.

(** X9. Ranking leaves alone a list that is already in ranking order
    (every record followed only by records with less CPU, or as much CPU
    and no more memory): equal records are not swapped either. *)
Theorem rank_keeps_ranked_list (procs : list ProcRecord) :
  StronglySorted ranked_before procs -> rank procs = procs.
Proof.
  intros H. apply sort_reverse_sorted_fixed.
  induction H as [| a l Hl IH Ha]; constructor; [exact IH |].
  apply (Forall_impl _ (P := ranked_before a)); [| exact Ha].
  intros b. apply desc_ranked_before.
Qed.

Lemma rank_keeps_ranked_list_witness :
  rank [mkRecord 3 "c" 50 99; mkRecord 2 "b" 50 1; mkRecord 4 "d" 50 1;
        mkRecord 1 "a" 10 5]
  = [mkRecord 3 "c" 50 99; mkRecord 2 "b" 50 1; mkRecord 4 "d" 50 1;
     mkRecord 1 "a" 10 5].
Proof.
  apply rank_keeps_ranked_list.
  repeat (constructor;
          [| repeat (constructor;
                     try (unfold ranked_before; simpl;
                          first [left; reflexivity
                                | right; split;
                                  [reflexivity | vm_compute; discriminate]]))]).
  constructor.
Defined.

(** X10. Ranking twice is ranking once. *)
Theorem rank_idempotent (procs : list ProcRecord) :
  rank (rank procs) = rank procs.
Proof. apply sort_reverse_sorted_fixed, rank_sorted_desc. Qed.

(** X11. The first record of the ranking has the most CPU of all the
    sampled records and, among those with as much CPU, the most memory. *)
Theorem rank_first_is_maximum
        (procs rest : list ProcRecord) (r p : ProcRecord) :
  rank procs = r :: rest -> In p procs ->
  (cpu p <= cpu r)%Q /\ ((cpu p == cpu r)%Q -> (mem p <= mem r)%Q).
Proof.
  intros Hrank Hp.
  pose proof (rank_sorted_desc procs) as Hs.
  apply (Permutation_in _ (sort_perm sort_key PySeq.tuple_ltb true procs)) in Hp.
  fold (rank procs) in Hp. rewrite Hrank in Hs, Hp.
  destruct Hp as [<- | Hp].
  - split; [apply Qle_refl | intros _; apply Qle_refl].
  - inversion Hs as [| ? ? _ Hall]; subst.
    rewrite Forall_forall in Hall. specialize (Hall p Hp).
    apply desc_ranked_before in Hall. unfold ranked_before in Hall.
    split; [| intros E]; destruct Hall as [H | [H1 H2]]; lra.
Qed.

Lemma rank_first_is_maximum_witness :
  (cpu (mkRecord 2 "b" 50 1) <= cpu (mkRecord 3 "c" 50 99))%Q /\
  ((cpu (mkRecord 2 "b" 50 1) == cpu (mkRecord 3 "c" 50 99))%Q ->
   (mem (mkRecord 2 "b" 50 1) <= mem (mkRecord 3 "c" 50 99))%Q).
Proof.
  apply (rank_first_is_maximum
           [mkRecord 1 "a" 10 5; mkRecord 2 "b" 50 1; mkRecord 3 "c" 50 99]
           [mkRecord 2 "b" 50 1; mkRecord 1 "a" 10 5]).
  - reflexivity.
  - right. left. reflexivity.
Defined.

(** ** Layout at every width *)

(** X12. Whatever the terminal width, zero or negative included, the two
    bar widths add up to [bar_space], which is the larger of
    [MIN_BAR_WIDTH] and what the 54 reserved columns leave; each bar gets
    at least 5 columns, so at least 3 cells between its brackets, and the
    memory bar is as wide as the CPU bar or one column wider. *)
Theorem layout_bars_split_bar_space (tw : Z) :
  cpu_bar_w (layout tw) + mem_bar_w (layout tw) = bar_space (layout tw) /\
  bar_space (layout tw) = Z.max MIN_BAR_WIDTH (tw - 54) /\
  5 <= cpu_bar_w (layout tw) /\
  cpu_bar_w (layout tw) <= mem_bar_w (layout tw) <= cpu_bar_w (layout tw) + 1 /\
  3 <= cpu_bar_w (layout tw) - 2 /\ 3 <= mem_bar_w (layout tw) - 2.
Proof.
  rewrite layout_mem_bar_w, layout_cpu_bar_w, layout_bar_space.
  unfold MIN_BAR_WIDTH. repeat split; Z.div_mod_to_equations; lia.
Qed.

(** X13. A wider terminal never gives a narrower bar. *)
Theorem layout_bars_grow_with_width (tw tw' : Z) :
  tw <= tw' ->
  bar_space (layout tw) <= bar_space (layout tw') /\
  cpu_bar_w (layout tw) <= cpu_bar_w (layout tw') /\
  mem_bar_w (layout tw) <= mem_bar_w (layout tw').
Proof.
  intros H.
  rewrite !layout_mem_bar_w, !layout_cpu_bar_w, !layout_bar_space.
  unfold MIN_BAR_WIDTH. repeat split; Z.div_mod_to_equations; lia.
Qed.

Lemma layout_bars_grow_with_width_witness :
  80 <= 121 /\
  bar_space (layout 80) <= bar_space (layout 121) /\
  cpu_bar_w (layout 80) <= cpu_bar_w (layout 121) /\
  mem_bar_w (layout 80) <= mem_bar_w (layout 121).
Proof.
  split; [vm_compute; discriminate |].
  apply layout_bars_grow_with_width. vm_compute; discriminate.
Defined.

(** ** Width of the rows and number of strings printed *)

(** X14. The header row has [term_width - 1] characters from 64 columns
    on and 63 characters on every narrower terminal; it fits the terminal
    exactly when the terminal has at least 63 columns. *)
Theorem header_row_length (tw : Z) :
  Py.len (header (layout tw)) = Z.max 63 (tw - 1) /\
  (Py.len (header (layout tw)) <= tw <-> 63 <= tw).
Proof.
  rewrite header_len, layout_mem_bar_w, layout_cpu_bar_w, layout_bar_space.
  unfold MIN_BAR_WIDTH.
  split; [| split; intros H]; Z.div_mod_to_equations; lia.
Qed.

(** X15. A record whose percentages lie between 0 and 9999.95 gives a
    data row of [term_width - 3] characters from 64 columns on and of 61
    characters on every narrower terminal; the row fits the terminal
    exactly when the terminal has at least 61 columns. *)
Theorem data_row_length (tw : Z) (p : ProcRecord) :
  (0 <= cpu p)%Q -> (cpu p < 999995 # 100)%Q ->
  (0 <= mem p)%Q -> (mem p < 999995 # 100)%Q ->
  Py.len (line (layout tw) p) = Z.max 61 (tw - 3) /\
  (Py.len (line (layout tw) p) <= tw <-> 61 <= tw).
Proof.
  intros Hc0 Hc Hm0 Hm.
  pose proof (format_1f_fits (cpu p) Hc0 Hc).
  pose proof (format_1f_fits (mem p) Hm0 Hm).
  rewrite line_len, layout_mem_bar_w, layout_cpu_bar_w, layout_bar_space.
  unfold MIN_BAR_WIDTH.
  split; [| split; intros H']; Z.div_mod_to_equations; lia.
Qed.

Lemma data_row_length_witness :
  Py.len (line (layout 40) (mkRecord 1 "init" (125 # 10) (3 # 10)))
  = Z.max 61 (40 - 3) /\
  (Py.len (line (layout 40) (mkRecord 1 "init" (125 # 10) (3 # 10))) <= 40
   <-> 61 <= 40).
Proof.
  apply (data_row_length 40 (mkRecord 1 "init" (125 # 10) (3 # 10)));
    vm_compute; first [reflexivity | discriminate].
Defined.

(** X16. For a non-negative [top_n], [draw] calls [print] seven times
    around the data rows, five times before them (banner, title, rule,
    header, rule) and twice after (rule, footer), and prints
    [min(top_n, len(procs))] data rows: never more than [top_n], never more
    than there are records, and as many as the footer says. *)
Theorem draw_line_count
        (logo : string) (procs : list ProcRecord) (tw top_n : Z) (ri : Q)
        (total : Z) :
  0 <= top_n ->
  Z.of_nat (List.length (data_rows (layout tw) procs top_n))
  = Z.min top_n (Z.of_nat (List.length procs)) /\
  Z.of_nat (List.length (draw logo procs tw top_n ri total))
  = 7 + Z.min top_n (Z.of_nat (List.length procs)) /\
  footer total top_n procs =
  "Processes: " ++ Py.str total ++ " | Showing top "
    ++ Py.str (Z.of_nat (List.length (data_rows (layout tw) procs top_n)))
    ++ " by CPU usage".
Proof.
  intros H0.
  assert (E : Z.of_nat (List.length (data_rows (layout tw) procs top_n))
              = Z.min top_n (Z.of_nat (List.length procs))).
  { unfold data_rows, PySeq.slice_to. rewrite length_map.
    destruct (Z.leb_spec 0 top_n); [| lia]. rewrite length_firstn. lia. }
  split; [exact E | split].
  - rewrite draw_unfold, !length_app. cbn [List.length]. lia.
  - rewrite E. reflexivity.
Qed.

Lemma draw_line_count_witness :
  Z.of_nat (List.length
              (draw "" [mkRecord 1 "a" 10 5; mkRecord 2 "b" 50 1;
                        mkRecord 3 "c" 50 99] 80 2 1 42))
  = 7 + Z.min 2 3.
Proof.
  apply (draw_line_count
           "" [mkRecord 1 "a" 10 5; mkRecord 2 "b" 50 1; mkRecord 3 "c" 50 99]
           80 2 1 42).
  vm_compute; discriminate.
Defined.

(** ** One tick, from the process table to the screen *)

(** X17. When no metric query fails other than by the two expected
    errors, a tick returns a screen: what [draw] prints for the ranked
    records of the accessible processes, with [top_n] raised to 1 and the
    refresh interval to 0.1 if the flags were lower.  The screen shows
    [min(max(1, top), accessible)] data rows, so at least one row as soon
    as one process is accessible. *)
Theorem tick_draws_ranked_accessible
        (logo : string) (args_top : Z) (args_refresh : Q)
        (table : list Process) (tw total : Z) :
  (forall p, In p table -> accessible p = true \/ transient p) ->
  exists screen,
    tick logo args_top args_refresh table tw total = inr screen /\
    screen = draw logo (rank (flat_map record_of table)) tw
                  (Z.max 1 args_top) (Py.max (1 # 10) args_refresh) total /\
    ((1 # 10) <= Py.max (1 # 10) args_refresh)%Q /\
    Z.of_nat (List.length
                (data_rows (layout tw) (rank (flat_map record_of table))
                           (Z.max 1 args_top)))
    = Z.min (Z.max 1 args_top)
            (Z.of_nat (List.length (filter accessible table))) /\
    (filter accessible table <> [] ->
     data_rows (layout tw) (rank (flat_map record_of table))
               (Z.max 1 args_top) <> []).
Proof.
  intros Hok.
  pose proof (fetch_loop_skips table [] Hok) as E.
  fold (fetch_processes table) in E. simpl in E.
  set (procs := flat_map record_of table) in *.
  assert (Hlen : List.length (rank procs)
                 = List.length (filter accessible table)).
  { unfold rank.
    rewrite <- (Permutation_length
                  (sort_perm sort_key PySeq.tuple_ltb true procs)).
    rewrite <- (length_map pid procs). unfold procs.
    rewrite record_of_pids. apply length_map. }
  assert (Hn : Z.of_nat
                 (List.length
                    (data_rows (layout tw) (rank procs) (Z.max 1 args_top)))
               = Z.min (Z.max 1 args_top)
                       (Z.of_nat (List.length (filter accessible table)))).
  { unfold data_rows, PySeq.slice_to. rewrite length_map.
    destruct (Z.leb_spec 0 (Z.max 1 args_top)); [| lia].
    rewrite length_firstn, Hlen. lia. }
  eexists. split; [| split; [reflexivity | split; [| split]]].
  - unfold tick. rewrite E. reflexivity.
  - unfold Py.max. destruct (Qcompare_spec args_refresh (1 # 10)); lra.
  - exact Hn.
  - intros Hne Hrows.
    destruct (filter accessible table) as [| q l] eqn:F; [contradiction |].
    rewrite Hrows in Hn. cbn [List.length] in Hn. lia.
Qed.

Lemma tick_draws_ranked_accessible_witness :
  exists screen,
    tick "" 0 0
         [mkProcess 1 (Some "init") (inr 0%Q) (inr (1 # 10));
          mkProcess 7 (Some "gone") (inl NoSuchProcess) (inr 0%Q);
          mkProcess 9 (Some "sh") (inr (25 # 10)) (inr (3 # 10))]
         80 3 = inr screen /\
    nth_error screen 5
    = Some "9      sh                            2.5% [           ]    0.3% [           ]".
Proof.
  destruct (tick_draws_ranked_accessible
              "" 0 0
              [mkProcess 1 (Some "init") (inr 0%Q) (inr (1 # 10));
               mkProcess 7 (Some "gone") (inl NoSuchProcess) (inr 0%Q);
               mkProcess 9 (Some "sh") (inr (25 # 10)) (inr (3 # 10))]
              80 3)
    as (screen & Hret & Hscreen & _).
  - intros p [<- | [<- | [<- | []]]].
    + left; reflexivity.
    + right; left; reflexivity.
    + left; reflexivity.
  - exists screen. split; [exact Hret |].
    rewrite Hscreen. vm_compute. reflexivity.
Defined.

(** ** Start-up and the loop *)

Section MainFacts.
Variable logo : string.
Variable args_top : Z.
Variable args_refresh : Q.

Lemma prime_cases (table : list Process) :
  prime table = inr tt \/
  (prime table = inl OtherError /\
   exists p, In p table /\ cpu_percent p = inl OtherError).
Proof.
  induction table as [| q table IH]; [left; reflexivity |].
  simpl. destruct (cpu_percent q) as [[| |] | c] eqn:E.
  - destruct IH as [IH | (IH & p & Hin & Hp)]; [left; exact IH |].
    right. split; [exact IH |]. exists p. split; [now right | exact Hp].
  - destruct IH as [IH | (IH & p & Hin & Hp)]; [left; exact IH |].
    right. split; [exact IH |]. exists p. split; [now right | exact Hp].
  - right. split; [reflexivity |]. exists q. split; [now left | exact E].
  - destruct IH as [IH | (IH & p & Hin & Hp)]; [left; exact IH |].
    right. split; [exact IH |]. exists p. split; [now right | exact Hp].
Qed.

Lemma prime_raises (table : list Process) (p : Process) :
  In p table -> cpu_percent p = inl OtherError -> prime table = inl OtherError.
Proof.
  intros Hin Hp. induction table as [| q table IH]; [contradiction |].
  simpl. destruct Hin as [-> | Hin].
  - rewrite Hp. reflexivity.
  - destruct (cpu_percent q) as [[| |] | c]; auto.
Qed.

Lemma prime_cpu_only (t t' : list Process) :
  map cpu_percent t = map cpu_percent t' -> prime t = prime t'.
Proof.
  revert t'. induction t as [| p t IH]; intros [| p' t'] H;
    try discriminate; [reflexivity |].
  simpl in H. injection H as Hp Ht. simpl. rewrite <- Hp.
  destruct (cpu_percent p) as [[| |] | c]; auto.
Qed.

Lemma tick_returns (table : list Process) (tw total : Z) :
  (forall p, In p table -> accessible p = true \/ transient p) ->
  tick logo args_top args_refresh table tw total
  = inr (draw logo (rank (flat_map record_of table)) tw (Z.max 1 args_top)
              (Py.max (1 # 10) args_refresh) total).
Proof.
  intros Hok. pose proof (fetch_loop_skips table [] Hok) as E.
  fold (fetch_processes table) in E. simpl in E.
  unfold tick. rewrite E. reflexivity.
Qed.

Lemma tick_raises (table : list Process) (p : Process) (tw total : Z) :
  In p table -> sample p = inl OtherError ->
  tick logo args_top args_refresh table tw total = inl OtherError.
Proof.
  intros Hin Hp. unfold tick, fetch_processes.
  rewrite (fetch_loop_raises table p Hin Hp). reflexivity.
Qed.

Lemma filter_prints (f : event -> bool) (screen : list string) :
  (forall s, f (Print s) = false) -> filter f (map Print screen) = [].
Proof.
  intros Hf. induction screen as [| s screen IH]; [reflexivity |].
  simpl. rewrite Hf. exact IH.
Qed.

Lemma last_app_nonempty {A : Type} (l1 l2 : list A) (d : A) :
  l2 <> [] -> last (l1 ++ l2) d = last l2 d.
Proof.
  intros H. induction l1 as [| x l1 IH]; [reflexivity |].
  simpl. rewrite IH. destruct (l1 ++ l2)%list eqn:E; [| reflexivity].
  apply app_eq_nil in E. destruct E as [_ E]. contradiction.
Qed.

Lemma sleep_not_short :
  sleeps_less (1 # 10) (Sleep (Py.max (1 # 10) args_refresh)) = false.
Proof.
  apply ltb_false. unfold Py.max.
  destruct (Qcompare_spec args_refresh (1 # 10)); lra.
Qed.

(** The loop on iterations that all sample without an unexpected error. *)
Lemma loop_clean (envs : list TickEnv) :
  (forall env, In env envs -> forall p, In p (env_table env) ->
                                         accessible p = true \/ transient p) ->
  snd (loop logo args_top args_refresh envs) = Exit 0 /\
  List.length (filter is_clear (fst (loop logo args_top args_refresh envs)))
  = List.length envs /\
  filter (sleeps_less (1 # 10)) (fst (loop logo args_top args_refresh envs))
  = [] /\
  fst (loop logo args_top args_refresh envs) <> [] /\
  last (fst (loop logo args_top args_refresh envs)) ClearScreen
  = Print (String (ascii_of_nat 10) "Exiting...").
Proof.
  induction envs as [| env envs IH]; intros Hok.
  - cbn [loop fst snd filter]. rewrite sleep_not_short.
    repeat split. discriminate.
  - destruct IH as (Hexit & Hclear & Hsleep & Hne & Hlast).
    { intros e He. apply Hok. now right. }
    cbn [loop].
    rewrite (tick_returns (env_table env) (env_term_width env)
                          (env_total_procs env))
      by (apply Hok; now left).
    destruct (loop logo args_top args_refresh envs) as [events t].
    cbn [fst snd] in *.
    rewrite <- !app_comm_cons. cbn [filter]. rewrite sleep_not_short.
    cbn [is_clear]. rewrite !filter_app, !filter_prints by reflexivity.
    cbn [app List.length].
    repeat split.
    + exact Hexit.
    + now rewrite Hclear.
    + exact Hsleep.
    + discriminate.
    + rewrite !app_comm_cons. rewrite last_app_nonempty by exact Hne.
      exact Hlast.
Qed.

(** The loop when the sampling of one iteration raises. *)
Lemma loop_raises (good rest : list TickEnv) (bad : TickEnv) (p : Process) :
  (forall env, In env good -> forall q, In q (env_table env) ->
                                         accessible q = true \/ transient q) ->
  In p (env_table bad) -> sample p = inl OtherError ->
  snd (loop logo args_top args_refresh (good ++ bad :: rest))
  = Uncaught OtherError /\
  List.length
    (filter is_clear
            (fst (loop logo args_top args_refresh (good ++ bad :: rest))))
  = List.length good /\
  last (fst (loop logo args_top args_refresh (good ++ bad :: rest))) ClearScreen
  = Sleep (Py.max (1 # 10) args_refresh).
Proof.
  intros Hok Hin Hp. induction good as [| env good IH].
  - cbn [app loop].
    rewrite (tick_raises (env_table bad) p (env_term_width bad)
                         (env_total_procs bad) Hin Hp).
    repeat split.
  - destruct IH as (Hend & Hclear & Hlast).
    { intros e He. apply Hok. now right. }
    assert (Hne : fst (loop logo args_top args_refresh (good ++ bad :: rest))
                  <> []).
    { destruct good as [| env' good]; cbn [app loop].
      - rewrite (tick_raises (env_table bad) p (env_term_width bad)
                             (env_total_procs bad) Hin Hp).
        cbn [fst]. discriminate.
      - destruct (tick _ _ _ _ _ _); [cbn [fst]; discriminate |].
        destruct (loop logo args_top args_refresh (good ++ bad :: rest)).
        cbn [fst app]. discriminate. }
    cbn [app loop].
    rewrite (tick_returns (env_table env) (env_term_width env)
                          (env_total_procs env))
      by (apply Hok; now left).
    destruct (loop logo args_top args_refresh (good ++ bad :: rest))
      as [events t].
    cbn [fst snd] in *.
    rewrite <- ?app_comm_cons. cbn [filter].
    cbn [is_clear]. rewrite !filter_app, !filter_prints by reflexivity.
    cbn [app List.length].
    repeat split.
    + exact Hend.
    + now rewrite Hclear.
    + rewrite !app_comm_cons. rewrite last_app_nonempty by exact Hne.
      exact Hlast.
Qed.

End MainFacts.

(** X18. The priming loop raises exactly when [cpu_percent] raises, for
    some process, something other than the two expected errors, and [main]
    then ends on that exception before it has slept, cleared or printed
    anything.  Only [cpu_percent] is consulted: two tables with the same
    [cpu_percent] outcomes prime alike, whatever [memory_percent] would
    do. *)
Theorem prime_raises_only_unexpected (table : list Process) :
  (forall e, prime table = inl e -> e = OtherError) /\
  (prime table = inl OtherError <->
   exists p, In p table /\ cpu_percent p = inl OtherError) /\
  ((exists p, In p table /\ cpu_percent p = inl OtherError) ->
   forall logo top refresh envs,
     main logo top refresh table envs = ([], Uncaught OtherError)) /\
  (forall table',
     map cpu_percent table = map cpu_percent table' ->
     prime table = prime table').
Proof.
  split; [| split; [| split]].
  - intros e H. destruct (prime_cases table) as [E | [E _]];
      rewrite E in H; [discriminate | now injection H as <-].
  - split.
    + intros H. destruct (prime_cases table) as [E | [_ E]];
        [rewrite E in H; discriminate | exact E].
    + intros (p & Hin & Hp). apply (prime_raises table p Hin Hp).
  - intros (p & Hin & Hp) logo top refresh envs. unfold main.
    rewrite (prime_raises table p Hin Hp). reflexivity.
  - apply prime_cpu_only.
Qed.

(** X19. When priming and every iteration sample without an unexpected
    error, and the interrupt arrives during the sleep that follows the
    last iteration, [main] ends with [sys.exit(0)]; it has cleared the
    screen once per iteration, never slept less than 0.1 seconds, whatever
    the [-r] flag, and the last thing it printed is the line
    "Exiting..." after a line feed. *)
Theorem main_interrupted_exits_zero
        (logo : string) (top : option Z) (refresh : option Q)
        (startup : list Process) (envs : list TickEnv) :
  (forall p, In p startup -> cpu_percent p <> inl OtherError) ->
  (forall env, In env envs -> forall p, In p (env_table env) ->
                                         accessible p = true \/ transient p) ->
  snd (main logo top refresh startup envs) = Exit 0 /\
  List.length (filter is_clear (fst (main logo top refresh startup envs)))
  = List.length envs /\
  filter (sleeps_less (1 # 10)) (fst (main logo top refresh startup envs))
  = [] /\
  last (fst (main logo top refresh startup envs)) ClearScreen
  = Print (String (ascii_of_nat 10) "Exiting...").
Proof.
  intros Hstart Hok. unfold main.
  destruct (prime_cases startup) as [E | (_ & p & Hin & Hp)];
    [| exfalso; exact (Hstart p Hin Hp)].
  rewrite E.
  destruct (loop_clean logo
              (match top with Some n => n | None => DEFAULT_TOP end)
              (match refresh with Some r => r | None => DEFAULT_REFRESH end)
              envs Hok) as (H1 & H2 & H3 & _ & H4).
  repeat split; assumption.
Qed.

Lemma main_interrupted_exits_zero_witness :
  snd (main "" (Some 0) (Some 0%Q)
            [mkProcess 7 None (inl AccessDenied) (inl OtherError)]
            [mkTickEnv [mkProcess 1 (Some "init") (inr 0%Q) (inr (1 # 10));
                        mkProcess 7 None (inl AccessDenied) (inr 0%Q)] 80 2;
             mkTickEnv [mkProcess 1 (Some "init") (inr 1%Q) (inr (1 # 10))]
                       100 1])
  = Exit 0.
Proof.
  apply (main_interrupted_exits_zero
           "" (Some 0) (Some 0%Q)
           [mkProcess 7 None (inl AccessDenied) (inl OtherError)]
           [mkTickEnv [mkProcess 1 (Some "init") (inr 0%Q) (inr (1 # 10));
                       mkProcess 7 None (inl AccessDenied) (inr 0%Q)] 80 2;
            mkTickEnv [mkProcess 1 (Some "init") (inr 1%Q) (inr (1 # 10))]
                      100 1]).
  - intros p [<- | []]. discriminate.
  - intros env [<- | [<- | []]] p.
    + intros [<- | [<- | []]]; [left | right; right]; reflexivity.
    + intros [<- | []]. left. reflexivity.
Defined.

(** X20. When an iteration meets an unexpected error while sampling, the
    iterations before it having sampled without one, [main] ends on that
    exception: the screen was cleared once for each earlier iteration and
    not for the failing one, and the last thing the program did is the
    sleep of the failing iteration; no farewell line follows. *)
Theorem main_ends_on_unexpected_error
        (logo : string) (top : option Z) (refresh : option Q)
        (startup : list Process) (good rest : list TickEnv) (bad : TickEnv)
        (p : Process) :
  (forall q, In q startup -> cpu_percent q <> inl OtherError) ->
  (forall env, In env good -> forall q, In q (env_table env) ->
                                         accessible q = true \/ transient q) ->
  In p (env_table bad) -> sample p = inl OtherError ->
  snd (main logo top refresh startup (good ++ bad :: rest))
  = Uncaught OtherError /\
  List.length
    (filter is_clear
            (fst (main logo top refresh startup (good ++ bad :: rest))))
  = List.length good /\
  last (fst (main logo top refresh startup (good ++ bad :: rest))) ClearScreen
  = Sleep (Py.max (1 # 10)
                  (match refresh with Some r => r | None => DEFAULT_REFRESH end)).
Proof.
  intros Hstart Hok Hin Hp. unfold main.
  destruct (prime_cases startup) as [E | (_ & q & Hq & Hcpu)];
    [| exfalso; exact (Hstart q Hq Hcpu)].
  rewrite E.
  apply (loop_raises logo
           (match top with Some n => n | None => DEFAULT_TOP end)
           (match refresh with Some r => r | None => DEFAULT_REFRESH end)
           good rest bad p Hok Hin Hp).
Qed.

Lemma main_ends_on_unexpected_error_witness :
  snd (main "" None None []
            ([mkTickEnv [mkProcess 1 (Some "init") (inr 0%Q) (inr (1 # 10))]
                        80 1]
               ++ mkTickEnv [mkProcess 1 (Some "init") (inr 0%Q)
                                       (inl OtherError)] 80 1
               :: []))
  = Uncaught OtherError.
Proof.
  apply (main_ends_on_unexpected_error
           "" None None []
           [mkTickEnv [mkProcess 1 (Some "init") (inr 0%Q) (inr (1 # 10))]
                      80 1]
           []
           (mkTickEnv [mkProcess 1 (Some "init") (inr 0%Q) (inl OtherError)]
                      80 1)
           (mkProcess 1 (Some "init") (inr 0%Q) (inl OtherError))).
  - intros q [].
  - intros env [<- | []] q [<- | []]. left. reflexivity.
  - left. reflexivity.
  - reflexivity.
Defined.
